(** * vdsm storage: disk leases and the copy_data job

    A shallow embedding of [lib/vdsm/storage/disklease.py] and
    [lib/vdsm/storage/sdm/api/copy_data.py], followed by the properties
    of the lease/lock engine and of the job/endpoint engine.

    Python objects are records, attribute assignment is record update,
    exceptions are values of [exn], and code that calls the cluster-lock
    primitive or another collaborator runs in a state-and-exception
    monad over the [World] those collaborators live in. *)

From Stdlib Require Import ZArith String Ascii List Lia.
From Stdlib Require Import DecimalString DecimalPos DecimalZ.
From Stdlib Require Import Sorted.
From stdpp Require Import gmap strings.
Import ListNotations.
Open Scope Z_scope.

(** ** Python values *)

Module Py.

(** The values that occur in endpoint parameters and in the generation
    dictionary of a disk lease. *)
Inductive pyval :=
| PNone
| PBool (b : bool)
| PInt (z : Z)
| PStr (s : string).

Definition pyval_eqb (a b : pyval) : bool :=
  match a, b with
  | PNone, PNone => true
  | PBool x, PBool y => Bool.eqb x y
  | PInt x, PInt y => Z.eqb x y
  | PStr x, PStr y => String.eqb x y
  | _, _ => false
  end.

(** [str(n)] for an integer. *)
Definition str_int (z : Z) : string := NilZero.string_of_int (Z.to_int z).

(** [int(s)] for a string holding a decimal numeral with an optional
    minus sign; [None] stands for ValueError. *)
Definition int_of_str (s : string) : option Z :=
  option_map Z.of_int (NilZero.int_of_string s).

(** The double quote character. *)
Definition dq : string := String (ascii_of_nat 34) EmptyString.

(** [str.encode("utf-8")]: the strings handled here are ASCII, whose
    encoding is the string itself. *)
Definition encode_utf8 (s : string) : string := s.

End Py.
Export Py.

(** ** Exceptions *)

Inductive exn :=
| SanlockException (errno : Z) (msg : string)
| AcquireLockFailure (sd : string) (errno : Z) (msg detail : string)
| ReleaseLockFailure (sd : string) (errno : Z) (msg : string)
| UnsupportedOperation (reason src_vol dst_vol : string)
| ValueError (msg : string)
| KeyError (key : string)
| TypeError (msg : string)
| AttributeError (attr : string)
| ExternalError (what : string).

(** ** The state-and-exception monad *)

Inductive Res (A : Type) :=
| Ok (a : A)
| Raise (e : exn).
Arguments Ok {A} a.
Arguments Raise {A} e.

Definition M (S A : Type) : Type := S -> Res A * S.

Definition ret {S A} (a : A) : M S A := fun s => (Ok a, s).

Definition raise {S A} (e : exn) : M S A := fun s => (Raise e, s).

Definition bind {S A B} (m : M S A) (k : A -> M S B) : M S B :=
  fun s =>
    match m s with
    | (Ok a, s') => k a s'
    | (Raise e, s') => (Raise e, s')
    end.

Declare Scope py_scope.
Delimit Scope py_scope with py.
Notation "'let*' x := m 'in' k" := (bind m (fun x => k))
  (at level 10, x pattern, m at level 100, k at level 200) : py_scope.
Notation "m ;; k" := (bind m (fun _ => k))
  (at level 100, k at level 200, right associativity) : py_scope.
Open Scope py_scope.

Definition get {S} : M S S := fun s => (Ok s, s).
Definition modify {S} (f : S -> S) : M S unit := fun s => (Ok tt, f s).

(** [try: m  except C as e: h e]: [h] returns [None] on the exceptions
    the clause does not match, which then propagate. *)
Definition try_except {S A} (m : M S A) (h : exn -> option (M S A)) : M S A :=
  fun s =>
    match m s with
    | (Ok a, s') => (Ok a, s')
    | (Raise e, s') =>
        match h e with
        | Some handler => handler s'
        | None => (Raise e, s')
        end
    end.

(** [try: m  finally: f]: [f] runs on both exits; an exception of [m]
    is raised again afterwards unless [f] raised itself. *)
Definition try_finally {S A} (m : M S A) (f : M S unit) : M S A :=
  fun s =>
    match m s with
    | (Ok a, s') =>
        match f s' with
        | (Ok _, s'') => (Ok a, s'')
        | (Raise e, s'') => (Raise e, s'')
        end
    | (Raise e, s') =>
        match f s' with
        | (Ok _, s'') => (Raise e, s'')
        | (Raise e', s'') => (Raise e', s'')
        end
    end.

(** A computation on the world alone, run from a method of an object
    of type [O]. *)
Definition liftW {O W A} (m : M W A) : M (O * W) A :=
  fun s =>
    let (r, w') := m (snd s) in (r, (fst s, w')).

(** A method run on a local object [o]; the object is returned with
    the result, and is lost with an exception as the local variable
    that held it is. *)
Definition call {O W A} (o : O) (m : M (O * W) A) : M W (A * O) :=
  fun w =>
    match m (o, w) with
    | (Ok a, (o', w')) => (Ok (a, o'), w')
    | (Raise e, (_, w')) => (Raise e, w')
    end.

Definition self {O W} : M (O * W) O := fun s => (Ok (fst s), s).
Definition set_self {O W} (f : O -> O) : M (O * W) unit :=
  fun s => (Ok tt, (f (fst s), snd s)).

(** ** Collaborators: locks, the copy operation, the world

    The resource manager, the storage-domain directory, qemuimg and
    the sanlock binding are used through their interfaces only.  What
    they did is recorded, in order, in the trace of the world. *)

(** [rm.SHARED] and [rm.EXCLUSIVE]. *)
Inductive LockMode := SHARED | EXCLUSIVE.

(** The elements of an endpoint's [locks] list: [rm.Lock(ns, name, mode)]
    and [volume.VolumeLease(host_id, sd_id, img_id, vol_id)]. *)
Inductive lock :=
| Lock (ns name : string) (mode : LockMode)
| VolumeLease (host_id : Z) (sd_id img_id vol_id : string).

(** The keyword arguments of [qemuimg.convert]. *)
Record ConvertArgs := mkConvertArgs {
  cv_src : string;
  cv_dst : string;
  srcFormat : string;
  dstFormat : string;
  dstQcow2Compat : option string;
  backing : option string;
  backingFormat : option string;
  unordered_writes : bool;
  create : bool;
  bitmaps : bool;
  target_is_zero : bool
}.

(** A sanlock resource: lockspace, resource name, and the disks
    [(path, offset)] that hold it. *)
Definition Resource : Type := string * string * list (string * Z).

Inductive SanlockCall :=
| SlRegister
| SlAcquire (r : Resource) (slkfd : option Z) (lvb : bool)
| SlRelease (r : Resource) (slkfd : option Z)
| SlSetLvb (r : Resource) (data : string).

Inductive Event :=
| EvSanlock (c : SanlockCall) (ok : bool)
| EvRmAcquire (ns name : string) (mode : LockMode)
| EvRmRelease (ns name : string) (mode : LockMode)
| EvGuardedAcquire (locks : list lock)
| EvGuardedRelease (locks : list lock)
| EvAppropriateDevice (path : string)
| EvUdevTrigger (path : string)
| EvSleep (seconds : Z)
| EvVolumePrepare (vol_path : string) (rw : bool)
| EvVolumeTeardown (sd_id vol_id : string)
| EvVolumeOperationEnter (vol_path : string) (generation : option Z)
| EvVolumeOperationExit (vol_path : string)
| EvConvert (args : ConvertArgs)
| EvOperationRun
| EvOperationAbort.

(** The cluster-lock primitive.  [sl_script] fixes the outcome of the
    coming calls, one entry per call: [None] lets the call succeed,
    [Some (errno, msg)] makes it raise [SanlockException]; calls past
    the end of the script succeed.  [sl_held] are the resources this
    process holds, [sl_lvb] every value written to a lease value
    block, newest first. *)
Record Sanlock := mkSanlock {
  sl_script : list (option (Z * string));
  sl_next_fd : Z;
  sl_held : list Resource;
  sl_lvb : list (Resource * string)
}.

Record World := mkWorld {
  w_sanlock : Sanlock;
  w_trace : list Event
}.

Definition log_event (e : Event) : M World unit :=
  modify (fun w => mkWorld (w_sanlock w) (w_trace w ++ [e])).

(** ** The sanlock binding ([vdsm.storage.compat.sanlock]) *)

Module sanlock.

(** One call of the primitive: it consumes its entry of the script,
    is recorded in the trace, and takes effect only when it succeeds. *)
Definition primitive {A} (c : SanlockCall) (effect : Sanlock -> A * Sanlock)
  : M World A :=
  fun w =>
    let sl := w_sanlock w in
    let rest := tl (sl_script sl) in
    let sl0 := mkSanlock rest (sl_next_fd sl) (sl_held sl) (sl_lvb sl) in
    match hd None (sl_script sl) with
    | Some (errno, msg) =>
        (Raise (SanlockException errno msg),
         mkWorld sl0 (w_trace w ++ [EvSanlock c false]))
    | None =>
        let (a, sl1) := effect sl0 in
        (Ok a, mkWorld sl1 (w_trace w ++ [EvSanlock c true]))
    end.

Definition register : M World Z :=
  primitive SlRegister
    (fun sl => (sl_next_fd sl,
                mkSanlock (sl_script sl) (sl_next_fd sl + 1)
                          (sl_held sl) (sl_lvb sl))).

Definition acquire (lockspace resource : string) (disks : list (string * Z))
    (slkfd : option Z) (lvb : bool) : M World unit :=
  let r := (lockspace, resource, disks) in
  primitive (SlAcquire r slkfd lvb)
    (fun sl => (tt,
                mkSanlock (sl_script sl) (sl_next_fd sl)
                          (r :: sl_held sl) (sl_lvb sl))).

Definition release (lockspace resource : string) (disks : list (string * Z))
    (slkfd : option Z) : M World unit :=
  let r := (lockspace, resource, disks) in
  primitive (SlRelease r slkfd)
    (fun sl => (tt,
                mkSanlock (sl_script sl) (sl_next_fd sl)
                          (filter (fun h => h <> r) (sl_held sl))
                          (sl_lvb sl))).

Definition set_lvb (lockspace resource : string) (disks : list (string * Z))
    (data : string) : M World unit :=
  let r := (lockspace, resource, disks) in
  primitive (SlSetLvb r data)
    (fun sl => (tt,
                mkSanlock (sl_script sl) (sl_next_fd sl)
                          (sl_held sl) ((r, data) :: sl_lvb sl))).

End sanlock.

(** ** [lib/vdsm/storage/disklease.py] *)

Module disklease.

(** [Lease = collections.namedtuple("Lease", "name, path, offset")] *)
Record Lease := mkLease {
  name : string;
  path : string;
  offset : Z
}.

(** [repr] of a [Lease], as the [%s] of the acquire message prints it. *)
Definition repr_Lease (l : Lease) : string :=
  "Lease(name='" +:+ name l +:+ "', path='" +:+ path l +:+ "', offset="
    +:+ str_int (offset l) +:+ ")".

(** [HOST_STATUS_*] *)
Definition HOST_STATUS_UNAVAILABLE : string := "unavailable".
Definition HOST_STATUS_UNKNOWN : string := "unknown".
Definition HOST_STATUS_FREE : string := "free".
Definition HOST_STATUS_LIVE : string := "live".
Definition HOST_STATUS_FAIL : string := "fail".
Definition HOST_STATUS_DEAD : string := "dead".

(** The dictionary [{'gen': v}] kept in [self._generation]. *)
Record GenDict := mkGenDict { gen : pyval }.

(** [json.dumps] of the generation dictionary: a string value is
    quoted, an integer is printed in decimal.  (The only string ever
    stored is ['0'], which needs no escaping.) *)
Definition json_dumps (d : GenDict) : string :=
  "{" +:+ dq +:+ "gen" +:+ dq +:+ ": " +:+
  match gen d with
  | PStr s => dq +:+ s +:+ dq
  | PInt z => str_int z
  | PBool true => "true"
  | PBool false => "false"
  | PNone => "null"
  end +:+ "}".

Record DiskLease := mkDiskLease {
  _lease : Lease;
  _sd_id : string;
  _host_id : Z;
  _generation : GenDict;
  _sanlock_fd : option Z
}.

Definition __init__ (resource path : string) (offset : Z) (sd_id : string)
    (host_id : Z) : DiskLease :=
  {| _lease := mkLease resource path offset;
     _sd_id := sd_id;
     _host_id := host_id;
     _generation := mkGenDict (PStr "0");
     _sanlock_fd := None |}.

Definition set__sanlock_fd (fd : option Z) (l : DiskLease) : DiskLease :=
  mkDiskLease (_lease l) (_sd_id l) (_host_id l) (_generation l) fd.

Definition set__generation (g : GenDict) (l : DiskLease) : DiskLease :=
  mkDiskLease (_lease l) (_sd_id l) (_host_id l) g (_sanlock_fd l).

(** The type of the methods of a [DiskLease]. *)
Definition Method (A : Type) : Type := M (DiskLease * World) A.

(** [self._sdUUID].  [__init__] assigns [_lease], [_sd_id], [_host_id],
    [_generation] and [_sanlock_fd] and nothing else, and the lock
    interface [guarded.AbstractLock] that the class extends declares
    only [ns], [name], [mode], [acquire] and [release]: the attribute
    does not exist, and reading it raises [AttributeError]. *)
Definition _sdUUID : Method string :=
  raise (AttributeError "_sdUUID").

(** [str(e)] of a [SanlockException(errno, msg)]. *)
Definition str_SanlockException (errno : Z) (msg : string) : string :=
  "(" +:+ str_int errno +:+ ", '" +:+ msg +:+ "')".

Definition set_lvb (lease : Lease) (data : string) : Method unit :=
  let* this := self in
  try_except
    (liftW (sanlock.set_lvb (encode_utf8 (_sd_id this))
                            (encode_utf8 (name lease))
                            [(path lease, offset lease)]
                            data))
    (fun e => match e with
              | SanlockException errno msg =>
                  Some (let* sd := _sdUUID in
                        raise (ReleaseLockFailure sd errno msg))
              | _ => None
              end).

Definition acquire : Method unit :=
  let* fd :=
    try_except (liftW sanlock.register)
      (fun e => match e with
                | SanlockException errno msg =>
                    Some (let* sd := _sdUUID in
                          raise (AcquireLockFailure sd errno
                                   "Cannot register to sanlock"
                                   (str_SanlockException errno msg)))
                | _ => None
                end) in
  set_self (set__sanlock_fd (Some fd));;
  let* this := self in
  let resource_name := encode_utf8 (name (_lease this)) in
  try_except
    (liftW (sanlock.acquire (encode_utf8 (_sd_id this)) resource_name
                            [(path (_lease this), offset (_lease this))]
                            (_sanlock_fd this) true))
    (fun e => match e with
              | SanlockException errno msg =>
                  Some (let* sd := _sdUUID in
                        raise (AcquireLockFailure sd errno
                                 ("Cannot acquire " +:+ repr_Lease (_lease this))
                                 (str_SanlockException errno msg)))
              | _ => None
              end);;
  set_lvb (_lease this) (encode_utf8 (json_dumps (_generation this))).

Definition release : Method unit :=
  let* this := self in
  let resource_name := encode_utf8 (name (_lease this)) in
  try_except
    (liftW (sanlock.release (encode_utf8 (_sd_id this)) resource_name
                            [(path (_lease this), offset (_lease this))]
                            (_sanlock_fd this)))
    (fun e => match e with
              | SanlockException errno msg =>
                  Some (let* sd := _sdUUID in
                        raise (ReleaseLockFailure sd errno msg))
              | _ => None
              end).

(** [a + str(value)] where [a] is the current ['gen'] entry: string
    concatenation for a string, [TypeError] for an integer. *)
Definition add_str (a : pyval) (s : string) : Method pyval :=
  match a with
  | PStr x => ret (PStr (x +:+ s))
  | _ => raise (TypeError "unsupported operand type(s) for +")
  end.

(** [int(a)] where [a] is the current ['gen'] entry. *)
Definition int_value (a : pyval) : Res Z :=
  match a with
  | PInt z => Ok z
  | PBool b => Ok (if b then 1 else 0)
  | PStr s =>
      match int_of_str s with
      | Some z => Ok z
      | None => Raise (ValueError "invalid literal for int() with base 10")
      end
  | PNone => Raise (TypeError "int() argument must be a string or a number")
  end.

Definition int (a : pyval) : Method Z := fun s => (int_value a, s).

Definition update_generation (value : Z) : Method unit :=
  (* the arguments of log.info are evaluated before the call *)
  let* this := self in
  let* _ := add_str (gen (_generation this)) (str_int value) in
  let* n := int (gen (_generation this)) in
  set_self (set__generation (mkGenDict (PInt (n + value))));;
  let* this := self in
  set_lvb (_lease this) (encode_utf8 (json_dumps (_generation this))).

(** *** Reading a value block back

    [json.loads] on what [json_dumps] writes, and the generation number
    a value block stands for. *)

Fixpoint strip_prefix (p s : string) : option string :=
  match p with
  | EmptyString => Some s
  | String a p' =>
      match s with
      | String b s' => if Ascii.eqb a b then strip_prefix p' s' else None
      | EmptyString => None
      end
  end.

(** [s] cut at the first occurrence of [c]. *)
Fixpoint split_at (c : ascii) (s : string) : option (string * string) :=
  match s with
  | EmptyString => None
  | String a s' =>
      if Ascii.eqb a c then Some (EmptyString, s')
      else match split_at c s' with
           | Some (l, r) => Some (String a l, r)
           | None => None
           end
  end.

Definition json_loads (data : string) : option GenDict :=
  match strip_prefix ("{" +:+ dq +:+ "gen" +:+ dq +:+ ": ") data with
  | Some (String c rest) =>
      if Ascii.eqb c (ascii_of_nat 34) then
        match split_at (ascii_of_nat 34) rest with
        | Some (s, "}") => Some (mkGenDict (PStr s))
        | _ => None
        end
      else
        match split_at "}"%char (String c rest) with
        | Some (digits, "") =>
            option_map (fun z => mkGenDict (PInt z)) (int_of_str digits)
        | _ => None
        end
  | _ => None
  end.

Definition lvb_generation (data : string) : option Z :=
  match json_loads data with
  | Some d => match int_value (gen d) with Ok z => Some z | Raise _ => None end
  | None => None
  end.

(** The sanlock resource a lease object names in its calls. *)
Definition resource_of (l : DiskLease) : Resource :=
  (encode_utf8 (_sd_id l), encode_utf8 (name (_lease l)),
   [(path (_lease l), offset (_lease l))]).

(** The generations written to the value block of [r], oldest first. *)
Definition persisted_generations (r : Resource) (w : World) : list (option Z) :=
  rev (map (fun e => lvb_generation (snd e))
           (filter (fun e => fst e = r) (sl_lvb (w_sanlock w)))).

(** The generation the value block of [r] holds now. *)
Definition persisted_generation (r : Resource) (w : World) : option Z :=
  match filter (fun e => fst e = r) (sl_lvb (w_sanlock w)) with
  | e :: _ => lvb_generation (snd e)
  | [] => None
  end.

Definition held (r : Resource) (w : World) : Prop :=
  In r (sl_held (w_sanlock w)).

End disklease.

(** ** Collaborators of [copy_data.py] *)

(** [jobs.STATUS] *)
Inductive Status := PENDING | RUNNING | ABORTED | FAILED | DONE.

#[global] Instance Status_eq_dec : EqDecision Status.
Proof. solve_decision. Defined.

Module volume.

Record ParentVolume := mkParentVolume {
  volUUID : string;
  parent_getFormat : Z
}.

(** A volume handle as [dom.produceVolume] returns it: what its
    getters answer, and how [prepare] and the entry of [operation]
    turn out ([None]: they return, [Some what]: they raise). *)
Record Volume := mkVolume {
  getVolumePath : string;
  getFormat : Z;
  getParentVolume : option ParentVolume;
  requires_create : bool;
  zero_initialized : bool;
  prepare : option string;
  operation : option Z -> option string
}.

End volume.

Module sdc.

(** [dom.lease_info(lease_id)] *)
Record LeaseInfo := mkLeaseInfo {
  resource : string;
  path : string;
  offset : Z
}.

(** A storage-domain manifest as [sdCache.produce_manifest] returns it. *)
Record Manifest := mkManifest {
  hasVolumeLeases : bool;
  qcow2_compat : string;
  recommends_unordered_writes : Z -> bool;
  produceVolume : string -> string -> volume.Volume;
  lease_info : option string -> LeaseInfo
}.

End sdc.

(** Everything [copy_data.py] imports and the sources do not define:
    the constants of [vdsm.storage.constants] and [qemuimg.FORMAT], the
    storage-domain directory, and the outcome of the calls that can
    fail ([None]: the call returns, [Some what]: it raises). *)
Record Env := mkEnv {
  STORAGE : string;
  IMAGE_NAMESPACE : string;
  MAX_GENERATION : Z;
  fmt2str : Z -> string;
  FORMAT_RAW : string;
  getNamespace : string -> string -> string;
  produce_manifest : string -> sdc.Manifest;
  invalid_vm_conf_disk : volume.Volume -> bool;
  getBackingVolumePath : string -> string -> string;
  uuid_validate : string -> option string;
  guarded_acquire : list lock -> option string;
  acquireResource : string -> string -> LockMode -> option string;
  convert_run : ConvertArgs -> option string
}.

(** The outcome of a collaborator's call that can fail: its own
    exceptions are kept apart from the ones the sources raise. *)
Definition outcome {S} (o : option string) : M S unit :=
  match o with
  | Some what => raise (ExternalError what)
  | None => ret tt
  end.

(** A context manager: what runs on entry, what runs on exit, and
    whether the exit part also runs when the body raised.
    [cm_finally] is [true] for a class with [__exit__] and for a
    [@contextmanager] generator that yields inside [try: ... finally:].
    It is [false] for a generator of the shape [before; yield; after]:
    an exception of the body is thrown into the generator at its
    [yield], no handler is there, and [after] is skipped. *)
Record ContextManager := mkCM {
  cm_local : Type;
  cm_before : M World cm_local;
  cm_after : cm_local -> M World unit;
  cm_finally : bool
}.

(** [with cm: body], for a body that runs on the world alone. *)
Definition withW {A} (cm : ContextManager) (body : M World A) : M World A :=
  let* c := cm_before cm in
  if cm_finally cm then try_finally body (cm_after cm c)
  else (let* a := body in
        cm_after cm c;;
        ret a).

(** [with cm: body] inside a method of an object of type [O]. *)
Definition with_ {O A} (cm : ContextManager) (body : M (O * World) A)
  : M (O * World) A :=
  let* c := liftW (cm_before cm) in
  if cm_finally cm then try_finally body (liftW (cm_after cm c))
  else (let* a := body in
        liftW (cm_after cm c);;
        ret a).

Module guarded.

(** [guarded.context(locks)]: taking the locks can fail, giving them
    back on exit is taken to return. *)
Definition context (env : Env) (locks : list lock) : ContextManager :=
  {| cm_local := unit;
     cm_before := outcome (guarded_acquire env locks);;
                  log_event (EvGuardedAcquire locks);
     cm_after := fun _ => log_event (EvGuardedRelease locks);
     cm_finally := true |}.

End guarded.

Module rm.

(** [rm.acquireResource(ns, name, mode)]: taking the resource can
    fail, giving it back on exit is taken to return. *)
Definition acquireResource (env : Env) (ns name : string) (mode : LockMode)
  : ContextManager :=
  {| cm_local := unit;
     cm_before := outcome (acquireResource env ns name mode);;
                  log_event (EvRmAcquire ns name mode);
     cm_after := fun _ => log_event (EvRmRelease ns name mode);
     cm_finally := true |}.

End rm.

(** [vdsm.common.properties] is not among the sources; the four
    property kinds that [copy_data.py] declares are modelled from the
    spec's parameter list and from the declarations themselves.  A
    property declared [required=True] rejects [None], one that is not
    required takes its default for [None]; any other value must have
    the declared type and lie within the declared bounds.  A rejected
    value is a validation error ([ValueError]). *)
Module properties.

(** Modelled from the spec: [properties.UUID(required=...)], whose
    check of the text of a UUID is [uuid_validate]. *)
Definition UUID (env : Env) (required : bool) (v : pyval)
  : Res (option string) :=
  match v with
  | PNone => if required then Raise (ValueError "Property is required")
             else Ok None
  | PStr s => match uuid_validate env s with
              | Some u => Ok (Some u)
              | None => Raise (ValueError "Invalid UUID")
              end
  | _ => Raise (ValueError "Invalid UUID")
  end.

(** Modelled from the spec: [properties.String(required=...)]. *)
Definition String (required : bool) (v : pyval) : Res (option string) :=
  match v with
  | PNone => if required then Raise (ValueError "Property is required")
             else Ok None
  | PStr s => Ok (Some s)
  | _ => Raise (ValueError "Invalid string")
  end.

(** Modelled from the spec:
    [properties.Integer(required=False, minval=..., maxval=...)]. *)
Definition Integer (minval maxval : Z) (v : pyval) : Res (option Z) :=
  match v with
  | PNone => Ok None
  | PInt z => if ((minval <=? z) && (z <=? maxval))%Z then Ok (Some z)
              else Raise (ValueError "Invalid integer")
  | _ => Raise (ValueError "Invalid integer")
  end.

(** Modelled from the spec: [properties.Boolean(default=...)]. *)
Definition Boolean (default : bool) (v : pyval) : Res bool :=
  match v with
  | PNone => Ok default
  | PBool b => Ok b
  | _ => Raise (ValueError "Invalid boolean")
  end.

End properties.

(** The value of a required property, which validation made present. *)
Definition required_value (v : option string) : string :=
  match v with Some s => s | None => "" end.

(** [params.get(key)] *)
Definition params_get (params : gmap string pyval) (key : string) : pyval :=
  match params !! key with
  | Some v => v
  | None => PNone
  end.

(** A pure result inside the monad. *)
Definition lift_res {S A} (r : Res A) : M S A := fun s => (r, s).

(** ** [lib/vdsm/storage/sdm/api/copy_data.py] *)

Module copy_data.

Module Div.

Record CopyDataDivEndpoint := mkDiv {
  sd_id : string;
  img_id : string;
  vol_id : string;
  generation : option Z;
  prepared : bool;
  _host_id : Z;
  _writable : bool;
  _vol : option volume.Volume
}.

Definition __init__ (env : Env) (params : gmap string pyval) (host_id : Z)
    (writable : bool) : M World CopyDataDivEndpoint :=
  let* sd := lift_res (properties.UUID env true (params_get params "sd_id")) in
  let* img := lift_res (properties.UUID env true (params_get params "img_id")) in
  let* vol := lift_res (properties.UUID env true (params_get params "vol_id")) in
  let* g := lift_res (properties.Integer 0 (MAX_GENERATION env)
                        (params_get params "generation")) in
  let* p := lift_res (properties.Boolean false (params_get params "prepared")) in
  ret {| sd_id := required_value sd;
         img_id := required_value img;
         vol_id := required_value vol;
         generation := g;
         prepared := p;
         _host_id := host_id;
         _writable := writable;
         _vol := None |}.

Definition locks (env : Env) (this : CopyDataDivEndpoint) : list lock :=
  let img_ns := getNamespace env (IMAGE_NAMESPACE env) (sd_id this) in
  let mode := if _writable this then EXCLUSIVE else SHARED in
  let ret := [Lock (STORAGE env) (sd_id this) SHARED;
              Lock img_ns (img_id this) mode] in
  if _writable this then
    let dom := produce_manifest env (sd_id this) in
    if sdc.hasVolumeLeases dom then
      ret ++ [VolumeLease (_host_id this) (sd_id this)
                          (img_id this) (vol_id this)]
    else ret
  else ret.

(** The [volume] property.  It stores the handle in [_vol] on first
    use; the directory answers the same handle every time, so the
    property is read here without the store. *)
Definition volume (env : Env) (this : CopyDataDivEndpoint) : volume.Volume :=
  match _vol this with
  | Some v => v
  | None =>
      let dom := produce_manifest env (sd_id this) in
      sdc.produceVolume dom (img_id this) (vol_id this)
  end.

Definition path (env : Env) (this : CopyDataDivEndpoint) : string :=
  volume.getVolumePath (volume env this).

Definition is_invalid_vm_conf_disk (env : Env) (this : CopyDataDivEndpoint)
  : bool :=
  invalid_vm_conf_disk env (volume env this).

Definition qemu_format (env : Env) (this : CopyDataDivEndpoint) : string :=
  fmt2str env (volume.getFormat (volume env this)).

Definition backing_path (env : Env) (this : CopyDataDivEndpoint)
  : option string :=
  match volume.getParentVolume (volume env this) with
  | None => None
  | Some parent_vol =>
      Some (getBackingVolumePath env (img_id this) (volume.volUUID parent_vol))
  end.

Definition qcow2_compat (env : Env) (this : CopyDataDivEndpoint)
  : option string :=
  let dom := produce_manifest env (sd_id this) in
  Some (sdc.qcow2_compat dom).

Definition backing_qemu_format (env : Env) (this : CopyDataDivEndpoint)
  : option string :=
  match volume.getParentVolume (volume env this) with
  | None => None
  | Some parent_vol => Some (fmt2str env (volume.parent_getFormat parent_vol))
  end.

Definition recommends_unordered_writes (env : Env)
    (this : CopyDataDivEndpoint) : bool :=
  let dom := produce_manifest env (sd_id this) in
  sdc.recommends_unordered_writes dom (volume.getFormat (volume env this)).

Definition requires_create (env : Env) (this : CopyDataDivEndpoint) : bool :=
  volume.requires_create (volume env this).

Definition zero_initialized (env : Env) (this : CopyDataDivEndpoint) : bool :=
  volume.zero_initialized (volume env this).

(** Modelled from the spec: [Volume.operation] is not among the
    sources.  Entering validates the requested generation against the
    volume's metadata and may fail; leaving after the body returned
    bumps the volume's generation. *)
Definition volume_operation (env : Env) (this : CopyDataDivEndpoint)
  : ContextManager :=
  let vol := volume env this in
  {| cm_local := unit;
     cm_before := outcome (volume.operation vol (generation this));;
                  log_event (EvVolumeOperationEnter (volume.getVolumePath vol)
                                                    (generation this));
     cm_after := fun _ =>
                   log_event (EvVolumeOperationExit (volume.getVolumePath vol));
     cm_finally := false |}.

(** [prepare]: [volume.prepare] can fail; [volume.teardown], which
    runs in the [finally], is taken to return. *)
Definition prepare (env : Env) (this : CopyDataDivEndpoint) : ContextManager :=
  if prepared this then
    {| cm_local := unit;
       cm_before := ret tt;
       cm_after := fun _ => ret tt;
       cm_finally := false |}
  else
    let vol := volume env this in
    {| cm_local := unit;
       cm_before := outcome (volume.prepare vol);;
                    log_event (EvVolumePrepare (volume.getVolumePath vol)
                                               (_writable this));
       cm_after := fun _ =>
                     log_event (EvVolumeTeardown (sd_id this) (vol_id this));
       cm_finally := true |}.

End Div.

Module External.

Record CopyDataExternalEndpoint := mkExternal {
  _path : string;
  _lease_sd_id : string;
  _lease_id : option string;
  _host_id : Z
}.

Definition __init__ (env : Env) (params : gmap string pyval) (host_id : Z)
  : M World CopyDataExternalEndpoint :=
  let* p := lift_res (properties.String true (params_get params "path")) in
  let* sd := lift_res (properties.UUID env true
                         (params_get params "lease_sd_id")) in
  let* l := lift_res (properties.UUID env false
                        (params_get params "lease_id")) in
  let this := {| _path := required_value p;
                 _lease_sd_id := required_value sd;
                 _lease_id := l;
                 _host_id := host_id |} in
  log_event (EvAppropriateDevice (_path this));;
  ret this.

Definition locks (this : CopyDataExternalEndpoint) : list lock := [].

Definition path (this : CopyDataExternalEndpoint) : string := _path this.

Definition is_invalid_vm_conf_disk (this : CopyDataExternalEndpoint) : bool :=
  false.

Definition qemu_format (env : Env) (this : CopyDataExternalEndpoint)
  : string :=
  FORMAT_RAW env.

Definition backing_path (this : CopyDataExternalEndpoint) : option string :=
  None.

Definition qcow2_compat (this : CopyDataExternalEndpoint) : option string :=
  None.

Definition backing_qemu_format (this : CopyDataExternalEndpoint)
  : option string :=
  None.

Definition recommends_unordered_writes (this : CopyDataExternalEndpoint)
  : bool :=
  true.

Definition requires_create (this : CopyDataExternalEndpoint) : bool := false.

Definition volume (this : CopyDataExternalEndpoint) : option volume.Volume :=
  None.

Definition zero_initialized (this : CopyDataExternalEndpoint) : bool := false.

(** The part of [volume_operation] before its [yield]: it returns the
    local variable [lease]. *)
Definition volume_operation_before (env : Env)
    (this : CopyDataExternalEndpoint) : M World disklease.DiskLease :=
  let* info :=
    withW (rm.acquireResource env (STORAGE env) (_lease_sd_id this) SHARED)
          (let dom := produce_manifest env (_lease_sd_id this) in
           ret (sdc.lease_info dom (_lease_id this))) in
  let lease := disklease.__init__ (sdc.resource info) (sdc.path info)
                 (sdc.offset info) (_lease_sd_id this) (_host_id this) in
  let* r := call lease disklease.acquire in
  ret (snd r).

(** The part of [volume_operation] after its [yield]. *)
Definition volume_operation_after (lease : disklease.DiskLease)
  : M World unit :=
  let* r := call lease (disklease.update_generation 1) in
  let* _ := call (snd r) disklease.release in
  ret tt.

Definition volume_operation (env : Env) (this : CopyDataExternalEndpoint)
  : ContextManager :=
  {| cm_local := disklease.DiskLease;
     cm_before := volume_operation_before env this;
     cm_after := volume_operation_after;
     cm_finally := false |}.

Definition prepare (this : CopyDataExternalEndpoint) : ContextManager :=
  {| cm_local := unit;
     cm_before := log_event (EvAppropriateDevice (_path this));;
                  log_event (EvUdevTrigger (_path this));;
                  log_event (EvSleep 5);
     cm_after := fun _ => ret tt;
     cm_finally := true |}.

End External.

(** An endpoint is an object of one of the two classes; the job calls
    its methods by name. *)
Inductive Endpoint :=
| DivEndpoint (e : Div.CopyDataDivEndpoint)
| ExternalEndpoint (e : External.CopyDataExternalEndpoint).

Definition _create_endpoint (env : Env) (params : gmap string pyval)
    (host_id : Z) (writable : bool) : M World Endpoint :=
  (* endpoint_type = params.pop('endpoint_type') *)
  match params !! "endpoint_type" with
  | None => raise (KeyError "endpoint_type")
  | Some endpoint_type =>
      let params := delete "endpoint_type" params in
      if pyval_eqb endpoint_type (PStr "div") then
        let* e := Div.__init__ env params host_id writable in
        ret (DivEndpoint e)
      else if pyval_eqb endpoint_type (PStr "external") then
        let* e := External.__init__ env params host_id in
        ret (ExternalEndpoint e)
      else
        raise (ValueError "Invalid or unsupported endpoint")
  end.

Module Ep.

Definition locks (env : Env) (ep : Endpoint) : list lock :=
  match ep with
  | DivEndpoint e => Div.locks env e
  | ExternalEndpoint e => External.locks e
  end.

Definition path (env : Env) (ep : Endpoint) : string :=
  match ep with
  | DivEndpoint e => Div.path env e
  | ExternalEndpoint e => External.path e
  end.

Definition is_invalid_vm_conf_disk (env : Env) (ep : Endpoint) : bool :=
  match ep with
  | DivEndpoint e => Div.is_invalid_vm_conf_disk env e
  | ExternalEndpoint e => External.is_invalid_vm_conf_disk e
  end.

Definition qemu_format (env : Env) (ep : Endpoint) : string :=
  match ep with
  | DivEndpoint e => Div.qemu_format env e
  | ExternalEndpoint e => External.qemu_format env e
  end.

Definition backing_path (env : Env) (ep : Endpoint) : option string :=
  match ep with
  | DivEndpoint e => Div.backing_path env e
  | ExternalEndpoint e => External.backing_path e
  end.

Definition qcow2_compat (env : Env) (ep : Endpoint) : option string :=
  match ep with
  | DivEndpoint e => Div.qcow2_compat env e
  | ExternalEndpoint e => External.qcow2_compat e
  end.

Definition backing_qemu_format (env : Env) (ep : Endpoint) : option string :=
  match ep with
  | DivEndpoint e => Div.backing_qemu_format env e
  | ExternalEndpoint e => External.backing_qemu_format e
  end.

Definition recommends_unordered_writes (env : Env) (ep : Endpoint) : bool :=
  match ep with
  | DivEndpoint e => Div.recommends_unordered_writes env e
  | ExternalEndpoint e => External.recommends_unordered_writes e
  end.

Definition requires_create (env : Env) (ep : Endpoint) : bool :=
  match ep with
  | DivEndpoint e => Div.requires_create env e
  | ExternalEndpoint e => External.requires_create e
  end.

Definition zero_initialized (env : Env) (ep : Endpoint) : bool :=
  match ep with
  | DivEndpoint e => Div.zero_initialized env e
  | ExternalEndpoint e => External.zero_initialized e
  end.

Definition volume_operation (env : Env) (ep : Endpoint) : ContextManager :=
  match ep with
  | DivEndpoint e => Div.volume_operation env e
  | ExternalEndpoint e => External.volume_operation env e
  end.

Definition prepare (env : Env) (ep : Endpoint) : ContextManager :=
  match ep with
  | DivEndpoint e => Div.prepare env e
  | ExternalEndpoint e => External.prepare e
  end.

End Ep.

(** The handle [qemuimg.convert] returns. *)
Record Operation := mkOperation { op_args : ConvertArgs }.

Record Job := mkJob {
  job_id : string;
  job_type : string;
  host_id : Z;
  _status : Status;
  _source : Endpoint;
  _dest : Endpoint;
  _operation : option Operation;
  _copy_bitmaps : bool
}.

Definition set__operation (op : option Operation) (j : Job) : Job :=
  mkJob (job_id j) (job_type j) (host_id j) (_status j) (_source j) (_dest j)
        op (_copy_bitmaps j).

Definition Method (A : Type) : Type := M (Job * World) A.

(** [Job.__init__]; the base class starts the job as pending. *)
Definition __init__ (env : Env) (job_id : string) (host_id : Z)
    (source destination : gmap string pyval) (copy_bitmaps : bool)
  : M World Job :=
  let* src := _create_endpoint env source host_id false in
  let* dst := _create_endpoint env destination host_id true in
  ret {| job_id := job_id;
         job_type := "copy_data";
         host_id := host_id;
         _status := PENDING;
         _source := src;
         _dest := dst;
         _operation := None;
         _copy_bitmaps := copy_bitmaps |}.

Definition _abort : Method unit :=
  let* this := self in
  match _operation this with
  | Some op => liftW (log_event EvOperationAbort)
  | None => ret tt
  end.

Definition _validate_copy_bitmaps (env : Env) (src_format dst_format : string)
  : Method unit :=
  let* this := self in
  if _copy_bitmaps this
     && (String.eqb (FORMAT_RAW env) src_format
         || String.eqb (FORMAT_RAW env) dst_format)
  then raise (UnsupportedOperation
                "Cannot copy bitmaps from/to volumes with raw format"
                (Ep.path env (_source this))
                (Ep.path env (_dest this)))
  else ret tt.

(** The arguments [_run] passes to [qemuimg.convert]. *)
Definition convert_args (env : Env) (this : Job)
    (src_format dst_format : string) : ConvertArgs :=
  {| cv_src := Ep.path env (_source this);
     cv_dst := Ep.path env (_dest this);
     srcFormat := src_format;
     dstFormat := dst_format;
     dstQcow2Compat := Ep.qcow2_compat env (_dest this);
     backing := Ep.backing_path env (_dest this);
     backingFormat := Ep.backing_qemu_format env (_dest this);
     unordered_writes := Ep.recommends_unordered_writes env (_dest this);
     create := Ep.requires_create env (_dest this);
     bitmaps := _copy_bitmaps this;
     target_is_zero := Ep.zero_initialized env (_dest this) |}.

(** [qemuimg.convert(...)] *)
Definition convert (env : Env) (this : Job) (src_format dst_format : string)
  : Method Operation :=
  let args := convert_args env this src_format dst_format in
  liftW (log_event (EvConvert args));;
  ret (mkOperation args).

(** [operation.run()] *)
Definition operation_run (env : Env) (op : Operation) : Method unit :=
  liftW (log_event EvOperationRun);;
  outcome (convert_run env (op_args op)).

(** The block under [with self._dest.volume_operation():]. *)
Definition _run_copy (env : Env) (src_format dst_format : string)
  : Method unit :=
  let* this := self in
  let* op := convert env this src_format dst_format in
  set_self (set__operation (Some op));;
  operation_run env op.

(** The block under the two outer [with] statements of [_run]. *)
Definition _run_prepared (env : Env) : Method unit :=
  let* this := self in
  match _status this with
  | ABORTED => ret tt
  | _ =>
      let formats :=
        if Ep.is_invalid_vm_conf_disk env (_source this)
        then (FORMAT_RAW env, FORMAT_RAW env)
        else (Ep.qemu_format env (_source this),
              Ep.qemu_format env (_dest this)) in
      let src_format := fst formats in
      let dst_format := snd formats in
      _validate_copy_bitmaps env src_format dst_format;;
      with_ (Ep.volume_operation env (_dest this))
        (_run_copy env src_format dst_format)
  end.

Definition _run (env : Env) : Method unit :=
  let* this := self in
  with_ (guarded.context env
           (Ep.locks env (_source this) ++ Ep.locks env (_dest this)))
    (with_ (Ep.prepare env (_source this))
       (with_ (Ep.prepare env (_dest this))
          (_run_prepared env))).

End copy_data.

(** ** A sample environment

    One storage domain with a qcow2 volume per image, used to run the
    definitions on concrete jobs. *)

Module Sample.

Definition vol (p : string) : volume.Volume :=
  {| volume.getVolumePath := p;
     volume.getFormat := 4;
     volume.getParentVolume := None;
     volume.requires_create := false;
     volume.zero_initialized := false;
     volume.prepare := None;
     volume.operation := fun _ => None |}.

Definition manifest (leases : bool) : sdc.Manifest :=
  {| sdc.hasVolumeLeases := leases;
     sdc.qcow2_compat := "1.1";
     sdc.recommends_unordered_writes := fun _ => false;
     sdc.produceVolume := fun img v => vol ("/rhev/" +:+ img +:+ "/" +:+ v);
     sdc.lease_info := fun _ =>
       sdc.mkLeaseInfo "lease-1" "/dev/sd-1/xleases" 3145728 |}.

(** [run] is the outcome of the copy itself. *)
Definition env (leases : bool) (run : option string) : Env :=
  {| STORAGE := "00_storage";
     IMAGE_NAMESPACE := "01_img";
     MAX_GENERATION := 999;
     fmt2str := fun f => if (f =? 5)%Z then "raw" else "qcow2";
     FORMAT_RAW := "raw";
     getNamespace := fun a b => a +:+ "_" +:+ b;
     produce_manifest := fun _ => manifest leases;
     invalid_vm_conf_disk := fun _ => false;
     getBackingVolumePath := fun img v => "../" +:+ img +:+ "/" +:+ v;
     uuid_validate := fun s => Some s;
     guarded_acquire := fun _ => None;
     acquireResource := fun _ _ _ => None;
     convert_run := fun _ => run |}.

Definition world (script : list (option (Z * string))) : World :=
  mkWorld (mkSanlock script 3 [] []) [].

Definition lease : disklease.DiskLease :=
  disklease.__init__ "lease-1" "/dev/sd-1/xleases" 3145728 "sd-1" 1.

Definition div_params : gmap string pyval :=
  <["endpoint_type" := PStr "div"]>
  (<["sd_id" := PStr "sd-1"]>
  (<["img_id" := PStr "img-1"]>
  (<["vol_id" := PStr "vol-1"]> ∅))).

Definition external_params : gmap string pyval :=
  <["endpoint_type" := PStr "external"]>
  (<["path" := PStr "/dev/rbd0"]>
  (<["lease_sd_id" := PStr "sd-1"]>
  (<["lease_id" := PStr "lease-1"]> ∅))).

Definition div_endpoint (writable : bool) : copy_data.Div.CopyDataDivEndpoint :=
  copy_data.Div.mkDiv "sd-1" "img-1" "vol-1" None false 1 writable None.

Definition external_endpoint : copy_data.External.CopyDataExternalEndpoint :=
  copy_data.External.mkExternal "/dev/rbd0" "sd-1" (Some "lease-1") 1.

Definition job (status : Status) (src dst : copy_data.Endpoint)
    (copy_bitmaps : bool) : copy_data.Job :=
  copy_data.mkJob "job-1" "copy_data" 1 status src dst None copy_bitmaps.

End Sample.

(** ** Observations used in the statements *)

(** The operations of a disk lease, as a caller issues them one after
    the other; an exception of one is caught by the caller, and the
    lease object and the world stay as the operation left them. *)
Inductive lease_op :=
| OpAcquire
| OpUpdateGeneration (value : Z)
| OpRelease.

Definition run_op (op : lease_op) : disklease.Method unit :=
  match op with
  | OpAcquire => disklease.acquire
  | OpUpdateGeneration value => disklease.update_generation value
  | OpRelease => disklease.release
  end.

Fixpoint run_ops (ops : list lease_op) (s : disklease.DiskLease * World)
  : disklease.DiskLease * World :=
  match ops with
  | [] => s
  | op :: rest => run_ops rest (snd (run_op op s))
  end.


(** Order on what a value block decodes to: both generations are
    readable and the first is not the larger. *)
Definition gen_le (a b : option Z) : Prop :=
  match a, b with
  | Some x, Some y => x <= y
  | _, _ => False
  end.

Definition readable (a : option Z) : Prop :=
  match a with Some _ => True | None => False end.



(** Every character of [s] satisfies [p]. *)
Fixpoint all_chars (p : ascii -> bool) (s : string) : bool :=
  match s with
  | EmptyString => true
  | String c s' => p c && all_chars p s'
  end.

(** The characters of a decimal numeral. *)
Definition numeral_char (c : ascii) : bool :=
  match c with
  | "0" | "1" | "2" | "3" | "4" | "5" | "6" | "7" | "8" | "9" | "-" => true
  | _ => false
  end%char.

(** The formats [_run] passes to the validation and to the copy. *)
Definition effective_formats (env : Env) (job : copy_data.Job)
  : string * string :=
  if copy_data.Ep.is_invalid_vm_conf_disk env (copy_data._source job)
  then (FORMAT_RAW env, FORMAT_RAW env)
  else (copy_data.Ep.qemu_format env (copy_data._source job),
        copy_data.Ep.qemu_format env (copy_data._dest job)).

(** The condition the bitmap validation rejects. *)
Definition bitmaps_with_raw (env : Env) (job : copy_data.Job) : Prop :=
  copy_data._copy_bitmaps job = true /\
  (fst (effective_formats env job) = FORMAT_RAW env \/
   snd (effective_formats env job) = FORMAT_RAW env).

(** Entering [prepare] of an endpoint succeeds. *)
Definition prepare_succeeds (env : Env) (ep : copy_data.Endpoint) : Prop :=
  match ep with
  | copy_data.DivEndpoint e =>
      copy_data.Div.prepared e = true \/
      volume.prepare (copy_data.Div.volume env e) = None
  | copy_data.ExternalEndpoint _ => True
  end.

(** The run gets to the validation: the job is not aborted, its locks
    are granted and both endpoints are prepared. *)
Definition reaches_validation (env : Env) (job : copy_data.Job) : Prop :=
  copy_data._status job <> ABORTED /\
  guarded_acquire env (copy_data.Ep.locks env (copy_data._source job) ++
                       copy_data.Ep.locks env (copy_data._dest job)) = None /\
  prepare_succeeds env (copy_data._source job) /\
  prepare_succeeds env (copy_data._dest job).

Definition raises_UnsupportedOperation {A} (r : Res A) : Prop :=
  match r with
  | Raise (UnsupportedOperation _ _ _) => True
  | _ => False
  end.

(** Events of the destination's [volume_operation] scope and of the
    copy operation. *)
Definition copy_phase_event (ev : Event) : bool :=
  match ev with
  | EvVolumeOperationEnter _ _ | EvVolumeOperationExit _
  | EvRmAcquire _ _ _ | EvRmRelease _ _ _ | EvSanlock _ _
  | EvConvert _ | EvOperationRun | EvOperationAbort => true
  | _ => false
  end.

(** Events that take a lock or a lease. *)
Definition lock_event (ev : Event) : bool :=
  match ev with
  | EvGuardedAcquire _ | EvRmAcquire _ _ _
  | EvSanlock (SlAcquire _ _ _) _ | EvSanlock SlRegister _ => true
  | _ => false
  end.

(** [m] takes every state to one that [R] relates it to, whether it
    returns or raises. *)
Definition preserves {S A} (R : S -> S -> Prop) (m : M S A) : Prop :=
  forall s, R s (snd (m s)).

(** Every exception [m] raises satisfies [P]. *)
Definition raises_only {S A} (P : exn -> Prop) (m : M S A) : Prop :=
  forall s e, fst (m s) = Raise e -> P e.

Definition is_ValueError (e : exn) : Prop :=
  match e with
  | ValueError _ => True
  | _ => False
  end.

Definition not_UnsupportedOperation (e : exn) : Prop :=
  match e with
  | UnsupportedOperation _ _ _ => False
  | _ => True
  end.

(** From [w] to [w'] the cluster-lock primitive was not called, and
    the trace grew by events outside the class [p]. *)
Definition quiet (p : Event -> bool) (w w' : World) : Prop :=
  w_sanlock w' = w_sanlock w /\
  exists new, w_trace w' = w_trace w ++ new /\
              Forall (fun ev => p ev = false) new.

(** The same for a method of an object that is left as it was. *)
Definition quiet_method {O} (p : Event -> bool) (s s' : O * World) : Prop :=
  fst s' = fst s /\ quiet p (snd s) (snd s').

(** The method [m] is quiet when it is called on the object [o]. *)
Definition quiet_at {O A} (p : Event -> bool) (o : O) (m : M (O * World) A)
  : Prop :=
  forall w, quiet_method p (o, w) (snd (m (o, w))).

(** Called on the object [o], [m] raises only exceptions in [P]. *)
Definition raises_only_at {O A} (P : exn -> Prop) (o : O)
    (m : M (O * World) A) : Prop :=
  forall w e, fst (m (o, w)) = Raise e -> P e.

(** ** The host liveness classifier *)

(** What the cluster-lock primitive reports about a host id. *)
Inductive renewal :=
| PrimitiveFailed
| NoLeaseRecord
| LastRenewal (elapsed : Z).

(** Modelled from the spec: the classifier itself is not among the
    sources, which only declare the status names.  A failed or
    unsupported primitive call gives [unavailable], no lease record
    gives [free]; with [elapsed] the seconds since the last renewal,
    less than 80 gives [live], 80 to 140 gives [fail], more than 140
    gives [dead]. *)
Definition host_status (r : renewal) : string :=
  match r with
  | PrimitiveFailed => disklease.HOST_STATUS_UNAVAILABLE
  | NoLeaseRecord => disklease.HOST_STATUS_FREE
  | LastRenewal elapsed =>
      if elapsed <? 80 then disklease.HOST_STATUS_LIVE
      else if elapsed <=? 140 then disklease.HOST_STATUS_FAIL
      else disklease.HOST_STATUS_DEAD
  end%Z.

(** ** Further observations *)

(** The event is a call of the cluster-lock primitive that registers
    the process or names the resource [r]. *)
Definition sanlock_call_on (r : Resource) (ev : Event) : Prop :=
  match ev with
  | EvSanlock SlRegister _ => True
  | EvSanlock (SlAcquire r' _ _) _ => r' = r
  | EvSanlock (SlRelease r' _) _ => r' = r
  | EvSanlock (SlSetLvb r' _) _ => r' = r
  | _ => False
  end.

(** The ['gen'] entry as [__init__] and [update_generation] leave it:
    the string ['0'] or an integer. *)
Definition generation_known (l : disklease.DiskLease) : Prop :=
  disklease.gen (disklease._generation l) = PStr "0" \/
  exists n, disklease.gen (disklease._generation l) = PInt n.

(** The two exceptions the methods of a lease end in. *)
Definition lease_exception (e : exn) : Prop :=
  e = AttributeError "_sdUUID" \/
  e = TypeError "unsupported operand type(s) for +".

(** [Job.progress]: [getattr(self._operation, 'progress', None)],
    where [op_progress] is what the handle of the copy reports. *)
Definition progress (op_progress : copy_data.Operation -> pyval)
    (this : copy_data.Job) : pyval :=
  match copy_data._operation this with
  | Some op => op_progress op
  | None => PNone
  end.

(** The world with [evs] appended to its trace. *)
Definition add_events (evs : list Event) (w : World) : World :=
  mkWorld (w_sanlock w) (w_trace w ++ evs).

(** What entering the [prepare()] scope of an endpoint records. *)
Definition prepare_events (env : Env) (ep : copy_data.Endpoint)
  : list Event :=
  match ep with
  | copy_data.DivEndpoint e =>
      if copy_data.Div.prepared e then []
      else [EvVolumePrepare
              (volume.getVolumePath (copy_data.Div.volume env e))
              (copy_data.Div._writable e)]
  | copy_data.ExternalEndpoint e =>
      [EvAppropriateDevice (copy_data.External._path e);
       EvUdevTrigger (copy_data.External._path e);
       EvSleep 5]
  end.

(** What leaving the [prepare()] scope of an endpoint records. *)
Definition teardown_events (ep : copy_data.Endpoint) : list Event :=
  match ep with
  | copy_data.DivEndpoint e =>
      if copy_data.Div.prepared e then []
      else [EvVolumeTeardown (copy_data.Div.sd_id e) (copy_data.Div.vol_id e)]
  | copy_data.ExternalEndpoint _ => []
  end.

(** The locks the job guards. *)
Definition job_locks (env : Env) (job : copy_data.Job) : list lock :=
  copy_data.Ep.locks env (copy_data._source job) ++
  copy_data.Ep.locks env (copy_data._dest job).

(** A lock of the resource manager in shared mode. *)
Definition shared_lock (l : lock) : Prop :=
  match l with
  | Lock _ _ SHARED => True
  | _ => False
  end.

Definition is_external (ep : copy_data.Endpoint) : Prop :=
  match ep with
  | copy_data.ExternalEndpoint _ => True
  | copy_data.DivEndpoint _ => False
  end.

(** * Properties *)

(** ** Decimal numerals and value blocks *)

Section Numerals.

Lemma all_chars_string_of_uint (d : Decimal.uint) :
  all_chars numeral_char (NilEmpty.string_of_uint d) = true.
Proof.
  induction d; simpl; auto.
Qed.

Lemma all_chars_str_int (z : Z) :
  all_chars numeral_char (str_int z) = true.
Proof.
  unfold str_int.
  destruct z as [|p|p]; simpl; auto.
  - destruct (Pos.to_uint p); simpl; auto using all_chars_string_of_uint.
  - destruct (Pos.to_uint p); simpl; auto using all_chars_string_of_uint.
Qed.

Lemma str_int_nonempty (z : Z) :
  exists c rest, str_int z = String c rest.
Proof.
  unfold str_int.
  destruct z as [|p|p]; simpl; eauto.
  pose proof (DecimalPos.Unsigned.to_uint_nonnil p) as Hp.
  destruct (Pos.to_uint p); simpl; eauto; congruence.
Qed.

Lemma int_of_str_str_int (z : Z) :
  int_of_str (str_int z) = Some z.
Proof.
  unfold int_of_str, str_int.
  rewrite NilZero.isi.
  - simpl. now rewrite DecimalZ.of_to.
  - destruct z; simpl; try discriminate.
    intros H; injection H as H. now apply DecimalPos.Unsigned.to_uint_nonnil in H.
  - destruct z; simpl; try discriminate.
    intros H; injection H as H. now apply DecimalPos.Unsigned.to_uint_nonnil in H.
Qed.

Lemma split_at_app (c : ascii) (s t : string) :
  all_chars (fun a => negb (Ascii.eqb a c)) s = true ->
  disklease.split_at c (s +:+ String c t) = Some (s, t).
Proof.
  induction s as [|a s IH]; simpl.
  - now rewrite Ascii.eqb_refl.
  - intros H. apply andb_prop in H as [Ha Hs].
    apply negb_true_iff in Ha. rewrite Ha, (IH Hs). reflexivity.
Qed.

Lemma all_chars_impl (p q : ascii -> bool) (s : string) :
  (forall c, p c = true -> q c = true) ->
  all_chars p s = true -> all_chars q s = true.
Proof.
  intros Hpq. induction s as [|a s IH]; simpl; auto.
  intros H. apply andb_prop in H as [Ha Hs].
  rewrite (Hpq _ Ha), (IH Hs). reflexivity.
Qed.

Lemma numeral_char_not_brace (c : ascii) :
  numeral_char c = true -> negb (Ascii.eqb c "}") = true.
Proof.
  intros H. destruct (Ascii.eqb_spec c "}") as [->|]; auto.
Qed.

Lemma numeral_char_not_quote (c : ascii) :
  numeral_char c = true -> Ascii.eqb c (ascii_of_nat 34) = false.
Proof.
  intros H. destruct (Ascii.eqb_spec c (ascii_of_nat 34)) as [->|]; auto.
Qed.

(** Reading back the value block written for an integer generation. *)
Lemma lvb_generation_int (z : Z) :
  disklease.lvb_generation
    (disklease.json_dumps (disklease.mkGenDict (PInt z))) = Some z.
Proof.
  unfold disklease.lvb_generation, disklease.json_loads, disklease.json_dumps.
  cbn [disklease.gen].
  destruct (str_int_nonempty z) as (c & rest & Hz).
  pose proof (all_chars_str_int z) as Hall.
  pose proof (int_of_str_str_int z) as Hint.
  rewrite Hz in *.
  assert (Hc : numeral_char c = true).
  { simpl in Hall. now apply andb_prop in Hall as [? _]. }
  assert (Hsplit : disklease.split_at "}" (String c (rest +:+ "}"))
                   = Some (String c rest, "")).
  { change (String c (rest +:+ "}")) with (String c rest +:+ String "}" "").
    apply split_at_app.
    eapply all_chars_impl; [|exact Hall]. apply numeral_char_not_brace. }
  remember disklease.split_at as split eqn:Hsp.
  remember int_of_str as ios eqn:Hios.
  unfold dq. simpl.
  rewrite (numeral_char_not_quote c Hc), Hsplit. simpl.
  rewrite Hint. reflexivity.
Qed.

(** Reading back the value block a new lease writes. *)
Lemma lvb_generation_initial :
  disklease.lvb_generation
    (disklease.json_dumps (disklease.mkGenDict (PStr "0"))) = Some 0.
Proof. reflexivity. Qed.

End Numerals.

(** ** The disk lease *)

Section DiskLease.

Import disklease.

Lemma persisted_generation_written (r : Resource) (data : string)
    (script : list (option (Z * string))) (fd : Z) (held : list Resource)
    (lvb : list (Resource * string)) (trace : list Event) :
  persisted_generation r
    (mkWorld (mkSanlock script fd held ((r, data) :: lvb)) trace)
  = lvb_generation data.
Proof.
  unfold persisted_generation. simpl.
  now rewrite filter_cons_True by done.
Qed.

(** A lease on which nothing fails: [acquire] registers, takes the
    resource and writes the generation of the object. *)
Lemma acquire_succeeds (l : DiskLease) (fd : Z) (held : list Resource)
    (lvb : list (Resource * string)) (trace : list Event) :
  acquire (l, mkWorld (mkSanlock [] fd held lvb) trace)
  = (Ok tt,
     (set__sanlock_fd (Some fd) l,
      mkWorld (mkSanlock [] (fd + 1) (resource_of l :: held)
                 ((resource_of l, json_dumps (_generation l)) :: lvb))
              (trace ++ [EvSanlock SlRegister true]
                     ++ [EvSanlock (SlAcquire (resource_of l) (Some fd) true)
                                   true]
                     ++ [EvSanlock (SlSetLvb (resource_of l)
                                             (json_dumps (_generation l)))
                                   true]))).
Proof.
  destruct l as [[n p o] sd h g f].
  unfold acquire, resource_of, encode_utf8. cbn.
  now rewrite <- !app_assoc.
Qed.

(** Claim C4.  When [sanlock.register()] or [sanlock.acquire()] fails
    during [DiskLease.acquire()], the handler that is to build the
    [AcquireLockFailure] reads [self._sdUUID] first, an attribute the
    object does not have: what [acquire()] raises is [AttributeError],
    not [AcquireLockFailure] with the storage-domain id, the error code
    and the message. *)
Theorem acquire_failure_raises_AttributeError (l : DiskLease) (w : World)
    (errno : Z) (msg : string) :
  hd None (sl_script (w_sanlock w)) = Some (errno, msg) \/
  (exists rest, sl_script (w_sanlock w) = None :: Some (errno, msg) :: rest) ->
  fst (acquire (l, w)) = Raise (AttributeError "_sdUUID").
Proof.
  destruct w as [[script fd held lvb] trace]. simpl.
  intros [Hreg | [rest Hacq]].
  - destruct script as [|[[e m]|] script]; simpl in Hreg; try discriminate.
    reflexivity.
  - subst script. reflexivity.
Qed.

Lemma acquire_failure_raises_AttributeError_witness :
  fst (acquire (Sample.lease, Sample.world [Some (5, "Input/output error")]))
  = Raise (AttributeError "_sdUUID") /\
  fst (acquire (Sample.lease,
                Sample.world [None; Some (11, "Resource temporarily unavailable")]))
  = Raise (AttributeError "_sdUUID").
Proof.
  split.
  - apply (acquire_failure_raises_AttributeError
             Sample.lease _ 5 "Input/output error").
    left. reflexivity.
  - apply (acquire_failure_raises_AttributeError
             Sample.lease _ 11 "Resource temporarily unavailable").
    right. exists []. reflexivity.
Defined.

(** [acquire()] never raises [AcquireLockFailure], whatever the
    primitive does. *)
Lemma acquire_never_raises_AcquireLockFailure (l : DiskLease) (w : World)
    (sd : string) (errno : Z) (msg detail : string) :
  fst (acquire (l, w)) <> Raise (AcquireLockFailure sd errno msg detail).
Proof.
  destruct w as [[script fd held lvb] trace].
  destruct script as [|[[e m]|] [|[[e' m']|] [|[[e'' m'']|] script]]];
    cbn; discriminate.
Qed.

(** Claim C3.  On a lease that is held, with a primitive that never
    fails, the first [update_generation(d1)] completes and persists
    the initial generation plus [d1]; the second call,
    [update_generation(d2)], does not complete: building its log
    message adds a string to the integer the first call stored, which
    raises [TypeError], and neither the object nor the value block
    changes. *)
Theorem update_generation_second_call_raises (resource path : string)
    (offset : Z) (sd : string) (host : Z) (w : World) (d1 d2 : Z) :
  sl_script (w_sanlock w) = [] ->
  let l := __init__ resource path offset sd host in
  let s1 := (acquire;; update_generation d1) (l, w) in
  fst s1 = Ok tt /\
  held (resource_of l) (snd (snd s1)) /\
  persisted_generation (resource_of l) (snd (snd s1)) = Some (0 + d1) /\
  update_generation d2 (snd s1)
  = (Raise (TypeError "unsupported operand type(s) for +"), snd s1).
Proof.
  destruct w as [[script fd hl lvb] trace]. simpl. intros ->.
  unfold bind at 1. rewrite acquire_succeeds.
  cbn -[json_dumps lvb_generation].
  repeat split.
  - unfold held. simpl. now left.
  - rewrite persisted_generation_written. apply lvb_generation_int.
Qed.

Lemma update_generation_second_call_raises_witness :
  let l := Sample.lease in
  let s1 := (acquire;; update_generation 1) (l, Sample.world []) in
  fst s1 = Ok tt /\
  held (resource_of l) (snd (snd s1)) /\
  persisted_generation (resource_of l) (snd (snd s1)) = Some (0 + 1) /\
  update_generation 1 (snd s1)
  = (Raise (TypeError "unsupported operand type(s) for +"), snd s1).
Proof.
  exact (update_generation_second_call_raises
           "lease-1" "/dev/sd-1/xleases" 3145728 "sd-1" 1
           (Sample.world []) 1 1 eq_refl).
Defined.

(** *** Monotonicity of the persisted generation *)





Lemma gen_le_readable (c : Z) (g : option Z) :
  gen_le (Some c) g -> readable g.
Proof. destruct g; simpl; auto. Qed.








End DiskLease.

(** ** The host liveness classifier *)

Section HostStatus.

Import disklease.

(** Claim C8.  The status of a host is a function of the seconds
    since its last renewal and of what the primitive reported: less
    than 80 seconds is [live], 80 to 140 seconds is [fail], more than
    140 seconds is [dead], no lease record is [free], a failed
    primitive call is [unavailable].  The two boundaries, exactly 80
    and exactly 140 seconds, both fall to [fail], and to no other
    status. *)
Theorem host_status_classification (elapsed : Z) :
  (elapsed < 80 -> host_status (LastRenewal elapsed) = HOST_STATUS_LIVE) /\
  (80 <= elapsed <= 140 ->
   host_status (LastRenewal elapsed) = HOST_STATUS_FAIL) /\
  (140 < elapsed -> host_status (LastRenewal elapsed) = HOST_STATUS_DEAD) /\
  host_status NoLeaseRecord = HOST_STATUS_FREE /\
  host_status PrimitiveFailed = HOST_STATUS_UNAVAILABLE /\
  host_status (LastRenewal 80) = HOST_STATUS_FAIL /\
  host_status (LastRenewal 80) <> HOST_STATUS_LIVE /\
  host_status (LastRenewal 140) = HOST_STATUS_FAIL /\
  host_status (LastRenewal 140) <> HOST_STATUS_DEAD.
Proof.
  unfold host_status.
  repeat split; try reflexivity; try discriminate; intros H.
  - destruct (Z.ltb_spec elapsed 80); [reflexivity | lia].
  - destruct (Z.ltb_spec elapsed 80); [lia | ].
    destruct (Z.leb_spec elapsed 140); [reflexivity | lia].
  - destruct (Z.ltb_spec elapsed 80); [lia | ].
    destruct (Z.leb_spec elapsed 140); [lia | reflexivity].
Qed.

Lemma host_status_classification_witness :
  host_status (LastRenewal 79) = HOST_STATUS_LIVE /\
  host_status (LastRenewal 100) = HOST_STATUS_FAIL /\
  host_status (LastRenewal 141) = HOST_STATUS_DEAD.
Proof.
  split; [| split].
  - apply (proj1 (host_status_classification 79)). lia.
  - apply (proj1 (proj2 (host_status_classification 100))). lia.
  - apply (proj1 (proj2 (proj2 (host_status_classification 141)))). lia.
Defined.

End HostStatus.

(** ** Endpoints *)

Section Endpoints.

Import copy_data.

(** Claim C6.  The [locks] of an internal-volume endpoint are, in this
    order: the storage-domain lock in shared mode, the image lock
    (exclusive for a writable endpoint, shared otherwise), and a
    volume lease, which is there exactly when the endpoint is writable
    and its storage domain has volume leases. *)
Theorem div_endpoint_locks_order (env : Env)
    (this : Div.CopyDataDivEndpoint) :
  Div.locks env this
  = [Lock (STORAGE env) (Div.sd_id this) SHARED;
     Lock (getNamespace env (IMAGE_NAMESPACE env) (Div.sd_id this))
          (Div.img_id this)
          (if Div._writable this then EXCLUSIVE else SHARED)]
    ++ (if Div._writable this
           && sdc.hasVolumeLeases (produce_manifest env (Div.sd_id this))
        then [VolumeLease (Div._host_id this) (Div.sd_id this)
                          (Div.img_id this) (Div.vol_id this)]
        else []).
Proof.
  unfold Div.locks.
  destruct (Div._writable this); simpl; [ | reflexivity].
  destruct (sdc.hasVolumeLeases _); reflexivity.
Qed.

Lemma pyval_eqb_eq (a b : pyval) : pyval_eqb a b = true <-> a = b.
Proof.
  destruct a, b; simpl; split; intros H; try discriminate; try reflexivity.
  - f_equal. now apply Bool.eqb_prop.
  - injection H as ->. apply Bool.eqb_reflx.
  - f_equal. now apply Z.eqb_eq.
  - injection H as ->. apply Z.eqb_refl.
  - f_equal. now apply String.eqb_eq.
  - injection H as ->. apply String.eqb_refl.
Qed.

Lemma pyval_eqb_neq (a b : pyval) : a <> b -> pyval_eqb a b = false.
Proof.
  intros H. destruct (pyval_eqb a b) eqn:E; [ | reflexivity].
  now apply pyval_eqb_eq in E.
Qed.

End Endpoints.

(** ** Reasoning about the monad *)

Section Monad.

Context {S : Type}.

Lemma preserves_ret {A} (R : S -> S -> Prop) `{!Reflexive R} (a : A) :
  preserves R (ret a).
Proof. intros s. simpl. reflexivity. Qed.

Lemma preserves_raise {A} (R : S -> S -> Prop) `{!Reflexive R} (e : exn) :
  preserves R (@raise S A e).
Proof. intros s. simpl. reflexivity. Qed.

Lemma preserves_lift_res {A} (R : S -> S -> Prop) `{!Reflexive R}
    (r : Res A) :
  preserves R (@lift_res S A r).
Proof. intros s. simpl. reflexivity. Qed.

Lemma preserves_outcome (R : S -> S -> Prop) `{!Reflexive R}
    (o : option string) :
  preserves R (@outcome S o).
Proof. intros s. destruct o; simpl; reflexivity. Qed.

Lemma preserves_get (R : S -> S -> Prop) `{!Reflexive R} :
  preserves R (@get S).
Proof. intros s. simpl. reflexivity. Qed.

Lemma preserves_bind {A B} (R : S -> S -> Prop) `{!Transitive R}
    (m : M S A) (k : A -> M S B) :
  preserves R m -> (forall a, preserves R (k a)) -> preserves R (bind m k).
Proof.
  intros Hm Hk s. unfold bind.
  specialize (Hm s). destruct (m s) as [[a|e] s']; simpl in *.
  - etransitivity; [exact Hm | apply Hk].
  - exact Hm.
Qed.

Lemma preserves_try_finally {A} (R : S -> S -> Prop) `{!Transitive R}
    (m : M S A) (f : M S unit) :
  preserves R m -> preserves R f -> preserves R (try_finally m f).
Proof.
  intros Hm Hf s. unfold try_finally.
  specialize (Hm s). destruct (m s) as [[a|e] s']; simpl in *;
    specialize (Hf s'); destruct (f s') as [[u|e'] s'']; simpl in *;
    etransitivity; eauto.
Qed.

Lemma preserves_try_except {A} (R : S -> S -> Prop) `{!Transitive R}
    (m : M S A) (h : exn -> option (M S A)) :
  preserves R m ->
  (forall e handler, h e = Some handler -> preserves R handler) ->
  preserves R (try_except m h).
Proof.
  intros Hm Hh s. unfold try_except.
  specialize (Hm s). destruct (m s) as [[a|e] s']; simpl in *; auto.
  destruct (h e) as [handler|] eqn:He; simpl; auto.
  etransitivity; [exact Hm | eapply Hh; eauto].
Qed.

Lemma raises_only_ret {A} (P : exn -> Prop) (a : A) :
  raises_only P (@ret S A a).
Proof. intros s e. discriminate. Qed.

Lemma raises_only_raise {A} (P : exn -> Prop) (e : exn) :
  P e -> raises_only P (@raise S A e).
Proof. intros He s e' [= <-]. exact He. Qed.

Lemma raises_only_get (P : exn -> Prop) : raises_only P (@get S).
Proof. intros s e. discriminate. Qed.

Lemma raises_only_outcome (P : exn -> Prop) (o : option string) :
  (forall what, P (ExternalError what)) -> raises_only P (@outcome S o).
Proof.
  intros HP s e. destruct o; simpl; [ | discriminate].
  intros [= <-]. apply HP.
Qed.

Lemma raises_only_bind {A B} (P : exn -> Prop) (m : M S A)
    (k : A -> M S B) :
  raises_only P m -> (forall a, raises_only P (k a)) ->
  raises_only P (bind m k).
Proof.
  intros Hm Hk s e. unfold bind.
  specialize (Hm s). destruct (m s) as [[a|e'] s']; simpl in *.
  - apply Hk.
  - intros [= <-]. now apply Hm.
Qed.

Lemma raises_only_try_finally {A} (P : exn -> Prop) (m : M S A)
    (f : M S unit) :
  raises_only P m -> raises_only P f -> raises_only P (try_finally m f).
Proof.
  intros Hm Hf s e. unfold try_finally.
  specialize (Hm s). destruct (m s) as [[a|e'] s']; simpl in *;
    specialize (Hf s'); destruct (f s') as [[u|e''] s'']; simpl in *;
    try discriminate; intros [= <-]; auto.
Qed.

Lemma raises_only_try_except {A} (P : exn -> Prop) (m : M S A)
    (h : exn -> option (M S A)) :
  (forall e, h e = None -> raises_only (fun x => x = e -> P e) m) ->
  (forall e handler, h e = Some handler -> raises_only P handler) ->
  raises_only P (try_except m h).
Proof.
  intros Hm Hh s e. unfold try_except.
  destruct (m s) as [[a|e'] s'] eqn:Hms; simpl; [discriminate | ].
  destruct (h e') as [handler|] eqn:He.
  - eapply Hh; eauto.
  - intros [= <-]. eapply (Hm e' He s); [now rewrite Hms | reflexivity].
Qed.

End Monad.

Section Worlds.

Global Instance quiet_refl (p : Event -> bool) : Reflexive (quiet p).
Proof.
  intros w. split; [reflexivity | ].
  exists []. now rewrite app_nil_r.
Qed.

Global Instance quiet_trans (p : Event -> bool) : Transitive (quiet p).
Proof.
  intros w1 w2 w3 [Hs1 (n1 & Ht1 & Hn1)] [Hs2 (n2 & Ht2 & Hn2)].
  split; [congruence | ].
  exists (n1 ++ n2). split.
  - now rewrite Ht2, Ht1, app_assoc.
  - now apply Forall_app.
Qed.

Global Instance quiet_method_refl {O} (p : Event -> bool) :
  Reflexive (@quiet_method O p).
Proof. intros s. split; reflexivity. Qed.

Global Instance quiet_method_trans {O} (p : Event -> bool) :
  Transitive (@quiet_method O p).
Proof.
  intros s1 s2 s3 [Ho1 Hw1] [Ho2 Hw2].
  split; [congruence | etransitivity; eauto].
Qed.

Lemma preserves_log_event (p : Event -> bool) (ev : Event) :
  p ev = false -> preserves (quiet p) (log_event ev).
Proof.
  intros Hev w. split; [reflexivity | ].
  exists [ev]. split; [reflexivity | ]. now constructor.
Qed.

Lemma raises_only_log_event (P : exn -> Prop) (ev : Event) :
  raises_only P (log_event ev).
Proof. intros w e. discriminate. Qed.

Lemma preserves_liftW {O A} (p : Event -> bool) (m : M World A) :
  preserves (quiet p) m -> preserves (@quiet_method O p) (liftW m).
Proof.
  intros Hm [o w]. unfold liftW. simpl.
  specialize (Hm w). destruct (m w) as [r w']. split; [reflexivity | exact Hm].
Qed.

Lemma raises_only_liftW {O A} (P : exn -> Prop) (m : M World A) :
  raises_only P m -> raises_only P (@liftW O World A m).
Proof.
  intros Hm [o w] e. unfold liftW. simpl.
  specialize (Hm w e). destruct (m w) as [r w']. exact Hm.
Qed.

Lemma raises_only_self {O} (P : exn -> Prop) :
  raises_only P (@self O World).
Proof. intros s e. discriminate. Qed.

Lemma raises_only_set_self {O} (P : exn -> Prop) (f : O -> O) :
  raises_only P (@set_self O World f).
Proof. intros s e. discriminate. Qed.

Lemma raises_only_call {O A} (P : exn -> Prop) (o : O)
    (m : M (O * World) A) :
  raises_only P m -> raises_only P (call o m).
Proof.
  intros Hm w e. unfold call.
  specialize (Hm (o, w) e). destruct (m (o, w)) as [[a|e'] [o' w']]; simpl in *.
  - discriminate.
  - intros [= <-]. now apply Hm.
Qed.

Lemma preserves_self {O} (R : O * World -> O * World -> Prop)
    `{!Reflexive R} :
  preserves R (@self O World).
Proof. intros s. simpl. reflexivity. Qed.

(** [with cm: body] keeps what its three parts keep. *)
Lemma quiet_at_with {O A} (p : Event -> bool) (cm : ContextManager)
    (body : M (O * World) A) (o : O) :
  preserves (quiet p) (cm_before cm) ->
  (forall c, preserves (quiet p) (cm_after cm c)) ->
  quiet_at p o body ->
  quiet_at p o (with_ cm body).
Proof.
  intros Hb Ha Hbody w. unfold with_, bind, liftW, try_finally. simpl.
  specialize (Hb w). destruct (cm_before cm w) as [[c|e] w1]; simpl in *.
  - specialize (Hbody w1).
    destruct (cm_finally cm); simpl;
      destruct (body (o, w1)) as [[a|e] [o2 w2]]; simpl in *;
      destruct Hbody as [Ho Hq]; simpl in *; subst o2;
      try (specialize (Ha c w2);
           destruct (cm_after cm c w2) as [[u|e'] w3]; simpl in * );
      (split; [reflexivity | simpl; repeat (etransitivity; eauto)]).
  - split; [reflexivity | exact Hb].
Qed.

Lemma raises_only_at_with {O A} (P : exn -> Prop) (cm : ContextManager)
    (body : M (O * World) A) (o : O) :
  raises_only P (cm_before cm) ->
  (forall c, raises_only P (cm_after cm c)) ->
  raises_only_at P o body ->
  raises_only_at P o (with_ cm body).
Proof.
  intros Hb Ha Hbody w e. unfold with_, bind, liftW, try_finally. simpl.
  specialize (Hb w). destruct (cm_before cm w) as [[c|e0] w1]; simpl in *.
  - specialize (Hbody w1).
    destruct (cm_finally cm); simpl;
      destruct (body (o, w1)) as [[a|e1] [o2 w2]]; simpl in *;
      try (specialize (Ha c w2);
           destruct (cm_after cm c w2) as [[u|e'] w3]; simpl in * );
      try discriminate; intros [= <-]; eauto.
  - intros [= <-]. now apply Hb.
Qed.

Lemma raises_only_with {O A} (P : exn -> Prop) (cm : ContextManager)
    (body : M (O * World) A) :
  raises_only P (cm_before cm) ->
  (forall c, raises_only P (cm_after cm c)) ->
  raises_only P body ->
  raises_only P (with_ cm body).
Proof.
  intros Hb Ha Hbody. unfold with_.
  apply raises_only_bind; [now apply raises_only_liftW | ].
  intros c. destruct (cm_finally cm).
  - apply raises_only_try_finally; [exact Hbody | ].
    now apply raises_only_liftW.
  - apply raises_only_bind; [exact Hbody | ].
    intros a. apply raises_only_bind; [now apply raises_only_liftW | ].
    intros _. apply raises_only_ret.
Qed.

Lemma raises_only_withW {A} (P : exn -> Prop) (cm : ContextManager)
    (body : M World A) :
  raises_only P (cm_before cm) ->
  (forall c, raises_only P (cm_after cm c)) ->
  raises_only P body ->
  raises_only P (withW cm body).
Proof.
  intros Hb Ha Hbody. unfold withW.
  apply raises_only_bind; [exact Hb | ].
  intros c. destruct (cm_finally cm).
  - apply raises_only_try_finally; [exact Hbody | apply Ha].
  - apply raises_only_bind; [exact Hbody | ].
    intros a. apply raises_only_bind; [apply Ha | ].
    intros _. apply raises_only_ret.
Qed.

(** A context manager whose entry returns and whose exit returns is
    transparent to the result of a body that does not depend on the
    world. *)
Lemma with_transparent {O A} (cm : ContextManager)
    (body : M (O * World) A) (o : O) (r : Res A) :
  (forall w, exists c w', cm_before cm w = (Ok c, w')) ->
  (forall c w, exists w', cm_after cm c w = (Ok tt, w')) ->
  (forall w, fst (body (o, w)) = r /\ fst (snd (body (o, w))) = o) ->
  forall w, fst (with_ cm body (o, w)) = r /\
            fst (snd (with_ cm body (o, w))) = o.
Proof.
  intros Hb Ha Hbody w. unfold with_, bind, liftW, try_finally. simpl.
  destruct (Hb w) as (c & w1 & ->).
  destruct (Hbody w1) as [Hr Ho].
  destruct (cm_finally cm); simpl;
    destruct (body (o, w1)) as [[a|e] [o2 w2]]; simpl in *; subst;
    try (destruct (Ha c w2) as (w3 & ->)); simpl; auto.
Qed.

End Worlds.

(** ** The copy_data job *)

Section CopyData.

Import copy_data.

Lemma not_UnsupportedOperation_external (what : string) :
  not_UnsupportedOperation (ExternalError what).
Proof. exact I. Qed.

(** *** The exceptions of the lease protocol *)

Lemma lease_acquire_raises :
  raises_only not_UnsupportedOperation disklease.acquire.
Proof.
  intros [l [[script fd hl lvb] trace]] e.
  destruct script as [|[[e1 m1]|] [|[[e2 m2]|] [|[[e3 m3]|] script]]];
    cbn; try discriminate; intros [= <-]; exact I.
Qed.

Lemma lease_update_generation_raises (value : Z) :
  raises_only not_UnsupportedOperation (disklease.update_generation value).
Proof.
  intros [[ls sd h [g] f] [[script fd hl lvb] trace]] e.
  unfold disklease.update_generation, bind, self. simpl.
  destruct g as [|b|z|s]; simpl; try (intros [= <-]; exact I).
  destruct (int_of_str s); simpl; [ | intros [= <-]; exact I].
  destruct script as [|[[e1 m1]|] script];
    cbn; try discriminate; intros [= <-]; exact I.
Qed.

Lemma lease_release_raises :
  raises_only not_UnsupportedOperation disklease.release.
Proof.
  intros [l [[script fd hl lvb] trace]] e.
  destruct script as [|[[e1 m1]|] script];
    cbn; try discriminate; intros [= <-]; exact I.
Qed.

(** *** The exceptions of the context managers *)

Lemma guarded_context_raises (env : Env) (locks : list lock) :
  raises_only not_UnsupportedOperation (cm_before (guarded.context env locks))
  /\ forall c, raises_only not_UnsupportedOperation
                 (cm_after (guarded.context env locks) c).
Proof.
  split; [ | intros c; apply raises_only_log_event].
  apply raises_only_bind.
  - apply raises_only_outcome, not_UnsupportedOperation_external.
  - intros _. apply raises_only_log_event.
Qed.

Lemma rm_acquireResource_raises (env : Env) (ns name : string)
    (mode : LockMode) :
  raises_only not_UnsupportedOperation
    (cm_before (rm.acquireResource env ns name mode))
  /\ forall c, raises_only not_UnsupportedOperation
                 (cm_after (rm.acquireResource env ns name mode) c).
Proof.
  split; [ | intros c; apply raises_only_log_event].
  apply raises_only_bind.
  - apply raises_only_outcome, not_UnsupportedOperation_external.
  - intros _. apply raises_only_log_event.
Qed.

Lemma prepare_raises (env : Env) (ep : Endpoint) :
  raises_only not_UnsupportedOperation (cm_before (Ep.prepare env ep))
  /\ forall c, raises_only not_UnsupportedOperation
                 (cm_after (Ep.prepare env ep) c).
Proof.
  destruct ep as [e|e]; simpl.
  - unfold Div.prepare. destruct (Div.prepared e); simpl.
    + split; [ | intros c]; apply raises_only_ret.
    + split; [ | intros c; apply raises_only_log_event].
      apply raises_only_bind.
      * apply raises_only_outcome, not_UnsupportedOperation_external.
      * intros _. apply raises_only_log_event.
  - split; [ | intros c; apply raises_only_ret].
    repeat (apply raises_only_bind; [apply raises_only_log_event | intros _]).
    apply raises_only_log_event.
Qed.

Lemma volume_operation_raises (env : Env) (ep : Endpoint) :
  raises_only not_UnsupportedOperation (cm_before (Ep.volume_operation env ep))
  /\ forall c, raises_only not_UnsupportedOperation
                 (cm_after (Ep.volume_operation env ep) c).
Proof.
  destruct ep as [e|e]; simpl.
  - split; [ | intros c; apply raises_only_log_event].
    apply raises_only_bind.
    + apply raises_only_outcome, not_UnsupportedOperation_external.
    + intros _. apply raises_only_log_event.
  - split.
    + unfold External.volume_operation_before.
      apply raises_only_bind.
      * apply raises_only_withW; try apply rm_acquireResource_raises.
        apply raises_only_ret.
      * intros info. apply raises_only_bind; [ | intros r; apply raises_only_ret].
        apply raises_only_call, lease_acquire_raises.
    + intros lease. unfold External.volume_operation_after.
      apply raises_only_bind.
      * apply raises_only_call, lease_update_generation_raises.
      * intros r. apply raises_only_bind; [ | intros; apply raises_only_ret].
        apply raises_only_call, lease_release_raises.
Qed.

Lemma run_copy_raises (env : Env) (src_format dst_format : string) :
  raises_only not_UnsupportedOperation (_run_copy env src_format dst_format).
Proof.
  unfold _run_copy.
  apply raises_only_bind; [apply raises_only_self | intros this].
  apply raises_only_bind.
  - unfold convert. apply raises_only_bind; [ | intros; apply raises_only_ret].
    apply raises_only_liftW, raises_only_log_event.
  - intros op. apply raises_only_bind; [apply raises_only_set_self | intros _].
    unfold operation_run. apply raises_only_bind.
    + apply raises_only_liftW, raises_only_log_event.
    + intros _. apply raises_only_outcome, not_UnsupportedOperation_external.
Qed.

(** *** What stays outside the copy phase *)

Lemma guarded_context_quiet (env : Env) (locks : list lock) :
  preserves (quiet copy_phase_event) (cm_before (guarded.context env locks))
  /\ forall c, preserves (quiet copy_phase_event)
                 (cm_after (guarded.context env locks) c).
Proof.
  split; [ | intros c; now apply preserves_log_event].
  apply preserves_bind; [apply _ | apply preserves_outcome, _ | intros _].
  now apply preserves_log_event.
Qed.

Lemma prepare_quiet (env : Env) (ep : Endpoint) :
  preserves (quiet copy_phase_event) (cm_before (Ep.prepare env ep))
  /\ forall c, preserves (quiet copy_phase_event)
                 (cm_after (Ep.prepare env ep) c).
Proof.
  destruct ep as [e|e]; simpl.
  - unfold Div.prepare. destruct (Div.prepared e); simpl.
    + split; [ | intros c]; apply preserves_ret, _.
    + split; [ | intros c; now apply preserves_log_event].
      apply preserves_bind; [apply _ | apply preserves_outcome, _ | intros _].
      now apply preserves_log_event.
  - split; [ | intros c; apply preserves_ret, _].
    repeat (apply preserves_bind;
            [apply _ | now apply preserves_log_event | intros _]).
    now apply preserves_log_event.
Qed.

Lemma guarded_context_enters (env : Env) (locks : list lock) :
  guarded_acquire env locks = None ->
  forall w, exists c w', cm_before (guarded.context env locks) w = (Ok c, w').
Proof.
  intros H w. simpl. unfold bind, outcome. rewrite H. simpl. eauto.
Qed.

Lemma guarded_context_exits (env : Env) (locks : list lock) :
  forall c w, exists w', cm_after (guarded.context env locks) c w = (Ok tt, w').
Proof. intros c w. simpl. eauto. Qed.

Lemma prepare_enters (env : Env) (ep : Endpoint) :
  prepare_succeeds env ep ->
  forall w, exists c w', cm_before (Ep.prepare env ep) w = (Ok c, w').
Proof.
  destruct ep as [e|e]; simpl; intros H w.
  - unfold Div.prepare. destruct (Div.prepared e); simpl; [eauto | ].
    destruct H as [H|H]; [discriminate | ].
    unfold bind, outcome. rewrite H. simpl. eauto.
  - cbn. eauto.
Qed.

Lemma prepare_exits (env : Env) (ep : Endpoint) :
  forall c w, exists w', cm_after (Ep.prepare env ep) c w = (Ok tt, w').
Proof.
  destruct ep as [e|e]; simpl; intros c w.
  - unfold Div.prepare in *. destruct (Div.prepared e); simpl; eauto.
  - eauto.
Qed.

(** *** The block under the outer [with] statements *)

(** The test [_validate_copy_bitmaps] makes. *)
Lemma bitmaps_with_raw_test (env : Env) (job : Job) :
  _copy_bitmaps job
  && (String.eqb (FORMAT_RAW env) (fst (effective_formats env job))
      || String.eqb (FORMAT_RAW env) (snd (effective_formats env job)))
  = true
  <-> bitmaps_with_raw env job.
Proof.
  unfold bitmaps_with_raw.
  rewrite andb_true_iff, orb_true_iff, !String.eqb_eq.
  intuition congruence.
Qed.

Lemma run_prepared_aborted (env : Env) (job : Job) (w : World) :
  _status job = ABORTED ->
  _run_prepared env (job, w) = (Ok tt, (job, w)).
Proof.
  intros H. unfold _run_prepared, bind, self. simpl. now rewrite H.
Qed.

Lemma run_prepared_rejects (env : Env) (job : Job) (w : World) :
  _status job <> ABORTED ->
  bitmaps_with_raw env job ->
  _run_prepared env (job, w)
  = (Raise (UnsupportedOperation
              "Cannot copy bitmaps from/to volumes with raw format"
              (Ep.path env (_source job)) (Ep.path env (_dest job))),
     (job, w)).
Proof.
  intros Hst Hraw. apply bitmaps_with_raw_test in Hraw.
  unfold _run_prepared, _validate_copy_bitmaps, bind, self. simpl.
  destruct (_status job); try congruence;
    cbn beta iota; cbn [fst snd];
    match goal with
    | |- context [andb ?c ?d] => destruct (andb c d) eqn:E
    end;
    try reflexivity;
    exfalso; apply not_true_iff_false in E; apply E; exact Hraw.
Qed.

Lemma run_prepared_accepts (env : Env) (job : Job) (w : World) :
  _status job <> ABORTED ->
  ~ bitmaps_with_raw env job ->
  _run_prepared env (job, w)
  = with_ (Ep.volume_operation env (_dest job))
      (_run_copy env (fst (effective_formats env job))
                     (snd (effective_formats env job)))
      (job, w).
Proof.
  intros Hst Hraw.
  unfold _run_prepared, _validate_copy_bitmaps, bind, self.
  simpl. destruct (_status job); try congruence;
    cbn beta iota; cbn [fst snd];
    match goal with
    | |- context [andb ?c ?d] => destruct (andb c d) eqn:E
    end;
    try reflexivity;
    exfalso; apply Hraw, bitmaps_with_raw_test; exact E.
Qed.

Lemma run_unfold (env : Env) (job : Job) (w : World) :
  _run env (job, w)
  = with_ (guarded.context env
             (Ep.locks env (_source job) ++ Ep.locks env (_dest job)))
      (with_ (Ep.prepare env (_source job))
         (with_ (Ep.prepare env (_dest job)) (_run_prepared env)))
      (job, w).
Proof. reflexivity. Qed.

(** *** Validation of the bitmap copy *)

(** When the run rejects the copy, or the job was aborted before,
    nothing of the copy phase happens and the job object stays as it
    was. *)
Lemma run_quiet_without_copy (env : Env) (job : Job) :
  _status job = ABORTED \/ bitmaps_with_raw env job ->
  quiet_at copy_phase_event job (_run env).
Proof.
  intros H w. rewrite run_unfold. revert w.
  apply quiet_at_with; try apply guarded_context_quiet.
  apply quiet_at_with; try apply prepare_quiet.
  apply quiet_at_with; try apply prepare_quiet.
  intros w.
  destruct (decide (_status job = ABORTED)) as [Hst|Hst].
  - rewrite run_prepared_aborted by exact Hst. reflexivity.
  - destruct H as [H|H]; [contradiction | ].
    rewrite run_prepared_rejects by assumption. reflexivity.
Qed.

(** Without bitmaps to copy onto a raw format, nothing in the run
    raises [UnsupportedOperation]. *)
Lemma run_accepts (env : Env) (job : Job) :
  ~ bitmaps_with_raw env job ->
  raises_only_at not_UnsupportedOperation job (_run env).
Proof.
  intros H w e. rewrite run_unfold. revert w e.
  apply raises_only_at_with; try apply guarded_context_raises.
  apply raises_only_at_with; try apply prepare_raises.
  apply raises_only_at_with; try apply prepare_raises.
  intros w e.
  destruct (decide (_status job = ABORTED)) as [Hst|Hst].
  - rewrite run_prepared_aborted by exact Hst. discriminate.
  - rewrite run_prepared_accepts by assumption.
    apply raises_only_with; try apply volume_operation_raises.
    apply run_copy_raises.
Qed.

(** A run that gets to the validation with bitmaps to copy onto a raw
    format raises [UnsupportedOperation]. *)
Lemma run_rejects (env : Env) (job : Job) (w : World) :
  reaches_validation env job ->
  bitmaps_with_raw env job ->
  fst (_run env (job, w))
  = Raise (UnsupportedOperation
             "Cannot copy bitmaps from/to volumes with raw format"
             (Ep.path env (_source job)) (Ep.path env (_dest job))).
Proof.
  intros (Hst & Hlocks & Hsrc & Hdst) Hraw. rewrite run_unfold.
  apply with_transparent;
    [now apply guarded_context_enters | apply guarded_context_exits | ].
  apply with_transparent;
    [now apply prepare_enters | apply prepare_exits | ].
  apply with_transparent;
    [now apply prepare_enters | apply prepare_exits | ].
  intros w'. now rewrite run_prepared_rejects.
Qed.

(** Claim C2, as the code has it.  For a job whose run gets to the
    validation (it was not aborted, its locks were granted and both
    endpoints were prepared), the run raises [UnsupportedOperation]
    if and only if [copy_bitmaps] is set and one of the effective
    formats is raw, both being raw when the source reports
    [is_invalid_vm_conf_disk()].  When it does, the destination's
    [volume_operation()] scope was not entered and the copy was not
    started: no event of either is in the trace, the cluster-lock
    primitive was not called, and the job's operation handle is what
    it was. *)
Theorem copy_bitmaps_validation (env : Env) (job : Job) (w : World) :
  reaches_validation env job ->
  (raises_UnsupportedOperation (fst (_run env (job, w)))
   <-> bitmaps_with_raw env job) /\
  (bitmaps_with_raw env job ->
   quiet_method copy_phase_event (job, w) (snd (_run env (job, w)))).
Proof.
  intros Hreach. split; [split | ].
  - intros Hraise.
    destruct (_copy_bitmaps job
              && (String.eqb (FORMAT_RAW env) (fst (effective_formats env job))
                  || String.eqb (FORMAT_RAW env)
                       (snd (effective_formats env job)))) eqn:E.
    + now apply bitmaps_with_raw_test.
    + exfalso.
      assert (Hno : ~ bitmaps_with_raw env job).
      { intros Hraw. apply bitmaps_with_raw_test in Hraw. congruence. }
      pose proof (run_accepts env job Hno w) as Hacc.
      destruct (fst (_run env (job, w))) as [u|e]; [exact Hraise | ].
      specialize (Hacc e eq_refl). destruct e; simpl in *; contradiction.
  - intros Hraw. now rewrite run_rejects.
  - intros Hraw. apply run_quiet_without_copy. now right.
Qed.

Lemma copy_bitmaps_validation_witness :
  let env := Sample.env false None in
  let job := Sample.job PENDING (DivEndpoint (Sample.div_endpoint false))
               (ExternalEndpoint Sample.external_endpoint) true in
  (raises_UnsupportedOperation (fst (_run env (job, Sample.world [])))
   <-> bitmaps_with_raw env job) /\
  (bitmaps_with_raw env job ->
   quiet_method copy_phase_event (job, Sample.world [])
     (snd (_run env (job, Sample.world [])))).
Proof.
  apply copy_bitmaps_validation.
  repeat split; simpl; auto.
Defined.

(** Claim C2, as stated, fails for a job that was aborted before its
    run got to the validation: bitmaps are to be copied onto a raw
    destination, and the run returns without raising. *)
Lemma aborted_job_is_not_rejected :
  let env := Sample.env false None in
  let job := Sample.job ABORTED (DivEndpoint (Sample.div_endpoint false))
               (ExternalEndpoint Sample.external_endpoint) true in
  bitmaps_with_raw env job /\
  fst (_run env (job, Sample.world [])) = Ok tt /\
  ~ (raises_UnsupportedOperation (fst (_run env (job, Sample.world [])))
     <-> bitmaps_with_raw env job).
Proof.
  assert (Hraw : bitmaps_with_raw (Sample.env false None)
                   (Sample.job ABORTED (DivEndpoint (Sample.div_endpoint false))
                      (ExternalEndpoint Sample.external_endpoint) true)).
  { split; [reflexivity | right; reflexivity]. }
  assert (Hrun : fst (_run (Sample.env false None)
                        (Sample.job ABORTED
                           (DivEndpoint (Sample.div_endpoint false))
                           (ExternalEndpoint Sample.external_endpoint) true,
                         Sample.world [])) = Ok tt)
    by (vm_compute; reflexivity).
  cbv zeta. split; [exact Hraw | split; [exact Hrun | ]].
  rewrite Hrun. intros [_ H]. exact (H Hraw).
Qed.

(** *** Abort *)

Lemma job_init_operation (env : Env) (job_id : string) (host_id : Z)
    (source destination : gmap string pyval) (copy_bitmaps : bool)
    (w w' : World) (job : Job) :
  __init__ env job_id host_id source destination copy_bitmaps w = (Ok job, w') ->
  _operation job = None /\ _status job = PENDING.
Proof.
  unfold __init__, bind.
  destruct (_create_endpoint env source host_id false w) as [[src|e] w1];
    [ | discriminate].
  destruct (_create_endpoint env destination host_id true w1) as [[dst|e] w2];
    [ | discriminate].
  simpl. intros [= <- _]. split; reflexivity.
Qed.

(** Claim C10.  On a job whose copy operation has not been started,
    so that its operation handle is [None], the abort hook returns
    without raising, calls no cancellation of an operation (the world
    and its trace are as before) and leaves the handle [None]. *)
Theorem abort_before_copy_started (job : Job) (w : World) :
  _operation job = None ->
  _abort (job, w) = (Ok tt, (job, w)) /\
  _operation (fst (snd (_abort (job, w)))) = None.
Proof.
  intros H. unfold _abort, bind, self. simpl. rewrite H. simpl.
  split; [reflexivity | exact H].
Qed.

Lemma abort_before_copy_started_witness :
  let job := Sample.job PENDING (DivEndpoint (Sample.div_endpoint false))
               (ExternalEndpoint Sample.external_endpoint) false in
  _abort (job, Sample.world []) = (Ok tt, (job, Sample.world [])) /\
  _operation (fst (snd (_abort (job, Sample.world [])))) = None.
Proof.
  apply abort_before_copy_started. reflexivity.
Defined.

Lemma abort_running_operation (job : Job) (w : World) (op : Operation) :
  _operation job = Some op ->
  _abort (job, w)
  = (Ok tt, (job, mkWorld (w_sanlock w) (w_trace w ++ [EvOperationAbort]))).
Proof.
  intros H. unfold _abort, bind, self. simpl. rewrite H. reflexivity.
Qed.

(** *** Construction of the endpoints *)

Lemma raises_only_lift_res {S A} (P : exn -> Prop) (r : Res A) :
  (forall e, r = Raise e -> P e) -> raises_only P (@lift_res S A r).
Proof. intros H s e. simpl. apply H. Qed.

Lemma properties_UUID_raises (env : Env) (required : bool) (v : pyval)
    (e : exn) :
  properties.UUID env required v = Raise e -> is_ValueError e.
Proof.
  unfold properties.UUID.
  destruct v as [|b|z|s]; try destruct required; try destruct (uuid_validate env s);
    try discriminate; intros [= <-]; exact I.
Qed.

Lemma properties_String_raises (required : bool) (v : pyval) (e : exn) :
  properties.String required v = Raise e -> is_ValueError e.
Proof.
  unfold properties.String.
  destruct v as [|b|z|s]; try destruct required;
    try discriminate; intros [= <-]; exact I.
Qed.

Lemma properties_Integer_raises (minval maxval : Z) (v : pyval) (e : exn) :
  properties.Integer minval maxval v = Raise e -> is_ValueError e.
Proof.
  unfold properties.Integer.
  destruct v as [|b|z|s]; try destruct (_ && _);
    try discriminate; intros [= <-]; exact I.
Qed.

Lemma properties_Boolean_raises (default : bool) (v : pyval) (e : exn) :
  properties.Boolean default v = Raise e -> is_ValueError e.
Proof.
  unfold properties.Boolean.
  destruct v as [|b|z|s]; try discriminate; intros [= <-]; exact I.
Qed.

Lemma div_init_raises (env : Env) (params : gmap string pyval) (host_id : Z)
    (writable : bool) :
  raises_only is_ValueError (Div.__init__ env params host_id writable).
Proof.
  unfold Div.__init__.
  apply raises_only_bind;
    [apply raises_only_lift_res, properties_UUID_raises | intros sd].
  apply raises_only_bind;
    [apply raises_only_lift_res, properties_UUID_raises | intros img].
  apply raises_only_bind;
    [apply raises_only_lift_res, properties_UUID_raises | intros vol].
  apply raises_only_bind;
    [apply raises_only_lift_res, properties_Integer_raises | intros g].
  apply raises_only_bind;
    [apply raises_only_lift_res, properties_Boolean_raises | intros p].
  apply raises_only_ret.
Qed.

Lemma external_init_raises (env : Env) (params : gmap string pyval)
    (host_id : Z) :
  raises_only is_ValueError (External.__init__ env params host_id).
Proof.
  unfold External.__init__.
  apply raises_only_bind;
    [apply raises_only_lift_res, properties_String_raises | intros p].
  apply raises_only_bind;
    [apply raises_only_lift_res, properties_UUID_raises | intros sd].
  apply raises_only_bind;
    [apply raises_only_lift_res, properties_UUID_raises | intros l].
  apply raises_only_bind; [apply raises_only_log_event | intros _].
  apply raises_only_ret.
Qed.

Lemma div_init_quiet (env : Env) (params : gmap string pyval) (host_id : Z)
    (writable : bool) :
  preserves (quiet lock_event) (Div.__init__ env params host_id writable).
Proof.
  unfold Div.__init__.
  repeat (apply preserves_bind;
          [apply _ | apply preserves_lift_res, _ | intros ?]).
  apply preserves_ret, _.
Qed.

Lemma external_init_quiet (env : Env) (params : gmap string pyval)
    (host_id : Z) :
  preserves (quiet lock_event) (External.__init__ env params host_id).
Proof.
  unfold External.__init__.
  repeat (apply preserves_bind;
          [apply _ | apply preserves_lift_res, _ | intros ?]).
  apply preserves_bind; [apply _ | now apply preserves_log_event | intros _].
  apply preserves_ret, _.
Qed.

(** Claim C5, as the code has it.  An endpoint parameter set with
    [endpoint_type] ['div'] is handed to the constructor of the
    internal-volume endpoint, one with ['external'] to the constructor
    of the external-device endpoint, and any other value, ['volume']
    included, raises [ValueError] at once.  In every case an endpoint
    of a kind comes only from its own tag, a failure is a validation
    error, and no lock or lease has been taken: the cluster-lock
    primitive was not called and the trace holds no acquisition. *)
Theorem create_endpoint_by_type (env : Env) (params : gmap string pyval)
    (host_id : Z) (writable : bool) (w : World) (t : pyval) :
  params !! "endpoint_type" = Some t ->
  let params' := delete "endpoint_type" params in
  let r := _create_endpoint env params host_id writable w in
  (t = PStr "div" ->
   r = bind (Div.__init__ env params' host_id writable)
            (fun e => ret (DivEndpoint e)) w) /\
  (t = PStr "external" ->
   r = bind (External.__init__ env params' host_id)
            (fun e => ret (ExternalEndpoint e)) w) /\
  (t <> PStr "div" -> t <> PStr "external" ->
   r = (Raise (ValueError "Invalid or unsupported endpoint"), w)) /\
  match fst r with
  | Ok (DivEndpoint _) => t = PStr "div"
  | Ok (ExternalEndpoint _) => t = PStr "external"
  | Raise e => is_ValueError e
  end /\
  quiet lock_event w (snd r).
Proof.
  intros Ht params' r. subst r. unfold _create_endpoint. rewrite Ht.
  fold params'.
  destruct (pyval_eqb t (PStr "div")) eqn:Ediv.
  { apply pyval_eqb_eq in Ediv. subst t.
    repeat split; try congruence.
    - pose proof (div_init_raises env params' host_id writable w) as Hr.
      unfold bind.
      destruct (Div.__init__ env params' host_id writable w) as [[e|e] w'];
        simpl in *; [reflexivity | now apply Hr].
    - pose proof (div_init_quiet env params' host_id writable w) as [Hq _].
      unfold bind.
      destruct (Div.__init__ env params' host_id writable w) as [[e|e] w'];
        exact Hq.
    - pose proof (div_init_quiet env params' host_id writable w) as [_ Hq].
      unfold bind.
      destruct (Div.__init__ env params' host_id writable w) as [[e|e] w'];
        exact Hq. }
  destruct (pyval_eqb t (PStr "external")) eqn:Eext.
  { apply pyval_eqb_eq in Eext. subst t.
    repeat split; try congruence.
    - pose proof (external_init_raises env params' host_id w) as Hr.
      unfold bind.
      destruct (External.__init__ env params' host_id w) as [[e|e] w'];
        simpl in *; [reflexivity | now apply Hr].
    - pose proof (external_init_quiet env params' host_id w) as [Hq _].
      unfold bind.
      destruct (External.__init__ env params' host_id w) as [[e|e] w'];
        exact Hq.
    - pose proof (external_init_quiet env params' host_id w) as [_ Hq].
      unfold bind.
      destruct (External.__init__ env params' host_id w) as [[e|e] w'];
        exact Hq. }
  repeat split; simpl.
  - intros ->. discriminate.
  - intros ->. discriminate.
  - exists []. now rewrite app_nil_r.
Qed.

Lemma create_endpoint_by_type_witness :
  let env := Sample.env false None in
  let w := Sample.world [] in
  let r := _create_endpoint env Sample.div_params 1 true w in
  (PStr "div" = PStr "div" ->
   r = bind (Div.__init__ env (delete "endpoint_type" Sample.div_params) 1 true)
            (fun e => ret (DivEndpoint e)) w) /\
  (PStr "div" = PStr "external" ->
   r = bind (External.__init__ env
               (delete "endpoint_type" Sample.div_params) 1)
            (fun e => ret (ExternalEndpoint e)) w) /\
  (PStr "div" <> PStr "div" -> PStr "div" <> PStr "external" ->
   r = (Raise (ValueError "Invalid or unsupported endpoint"), w)) /\
  match fst r with
  | Ok (DivEndpoint _) => PStr "div" = PStr "div"
  | Ok (ExternalEndpoint _) => PStr "div" = PStr "external"
  | Raise e => is_ValueError e
  end /\
  quiet lock_event w (snd r).
Proof.
  apply (create_endpoint_by_type (Sample.env false None) Sample.div_params
           1 true (Sample.world []) (PStr "div")).
  reflexivity.
Defined.

(** Claim C5, as stated, fails for the tag ['volume']: it is not the
    tag of the internal-volume endpoint, and the parameters that give
    that endpoint under ['div'] are rejected under ['volume']. *)
Lemma create_endpoint_volume_is_rejected :
  _create_endpoint (Sample.env false None)
    (<["endpoint_type" := PStr "volume"]> Sample.div_params) 1 true
    (Sample.world [])
  = (Raise (ValueError "Invalid or unsupported endpoint"), Sample.world [])
  /\
  _create_endpoint (Sample.env false None) Sample.div_params 1 true
    (Sample.world [])
  = (Ok (DivEndpoint (Sample.div_endpoint true)), Sample.world []).
Proof.
  split; vm_compute; reflexivity.
Qed.

(** *** The lease protocol of the external endpoint *)

(** The lease object [volume_operation] creates. *)
Lemma volume_operation_lease (env : Env)
    (this : External.CopyDataExternalEndpoint) (w w1 : World)
    (lease : disklease.DiskLease) :
  External.volume_operation_before env this w = (Ok lease, w1) ->
  let info := sdc.lease_info (produce_manifest env (External._lease_sd_id this))
                (External._lease_id this) in
  disklease.resource_of lease
  = (External._lease_sd_id this, sdc.resource info,
     [(sdc.path info, sdc.offset info)]) /\
  disklease._generation lease = disklease.mkGenDict (PStr "0") /\
  disklease.held (disklease.resource_of lease) w1 /\
  disklease.persisted_generation (disklease.resource_of lease) w1 = Some 0.
Proof.
  destruct w as [[script fd hl lvb] trace].
  unfold External.volume_operation_before, withW, bind, try_finally. simpl.
  unfold bind, outcome.
  destruct (acquireResource env (STORAGE env) (External._lease_sd_id this)
              SHARED); simpl; [discriminate | ].
  destruct script as [|[[e1 m1]|] [|[[e2 m2]|] [|[[e3 m3]|] script]]];
    cbn -[disklease.json_dumps disklease.persisted_generation];
    try discriminate;
    intros [= <- <-];
    (split; [reflexivity | split; [reflexivity | split ] ];
     [ unfold disklease.held; simpl; now left
     | unfold disklease.resource_of, encode_utf8; simpl;
       now rewrite persisted_generation_written ]).
Qed.

(** With nothing failing, [volume_operation] is entered and the lease
    is held when the body starts. *)
Lemma volume_operation_enters (env : Env)
    (this : External.CopyDataExternalEndpoint) (w : World) :
  acquireResource env (STORAGE env) (External._lease_sd_id this) SHARED = None ->
  sl_script (w_sanlock w) = [] ->
  exists lease w1,
    External.volume_operation_before env this w = (Ok lease, w1).
Proof.
  destruct w as [[script fd hl lvb] trace]. simpl. intros Hrm ->.
  unfold External.volume_operation_before, withW, bind, try_finally. simpl.
  unfold bind, outcome. rewrite Hrm. cbn. eauto.
Qed.

Lemma released_is_not_held (r : Resource) (hl : list Resource) :
  ~ In r (filter (fun h => h <> r) hl).
Proof.
  rewrite <- list_elem_of_In, list_elem_of_filter. intros [H _]. now apply H.
Qed.

(** When the copy returns, leaving [volume_operation] bumps the
    generation of the lease by 1 and releases the lease. *)
Lemma returning_copy_bumps_and_releases (env : Env)
    (this : External.CopyDataExternalEndpoint) (job : Job)
    (src_format dst_format : string) (w : World) :
  acquireResource env (STORAGE env) (External._lease_sd_id this) SHARED = None ->
  sl_script (w_sanlock w) = [] ->
  convert_run env (convert_args env job src_format dst_format) = None ->
  let info := sdc.lease_info (produce_manifest env (External._lease_sd_id this))
                (External._lease_id this) in
  let r := (External._lease_sd_id this, sdc.resource info,
            [(sdc.path info, sdc.offset info)]) in
  let s' := with_ (External.volume_operation env this)
              (_run_copy env src_format dst_format) (job, w) in
  fst s' = Ok tt /\
  ~ disklease.held r (snd (snd s')) /\
  disklease.persisted_generation r (snd (snd s')) = Some (0 + 1).
Proof.
  destruct w as [[script fd hl lvb] trace]. simpl. intros Hrm -> Hrun.
  unfold with_, bind, liftW. simpl.
  unfold External.volume_operation_before, withW, bind, try_finally. simpl.
  unfold bind, outcome. rewrite Hrm.
  cbn -[disklease.json_dumps disklease.persisted_generation convert_args filter].
  unfold outcome. rewrite Hrun.
  cbn -[disklease.json_dumps disklease.persisted_generation convert_args filter].
  split; [reflexivity | split].
  - unfold disklease.held. simpl. apply released_is_not_held.
  - rewrite persisted_generation_written. apply lvb_generation_int.
Qed.

(** Claim C1.  The lease is acquired before the body of
    [volume_operation()] runs, but leaving the scope is not guarded:
    when the copy raises, the exception passes through the generator
    at its [yield], and neither [update_generation(1)] nor [release()]
    is called.  The run ends with the exception of the copy, the
    cluster-lock primitive in the state the entry left it in: the
    lease still held, its generation still 0. *)
Theorem failed_copy_leaves_lease_held (env : Env)
    (this : External.CopyDataExternalEndpoint) (job : Job)
    (src_format dst_format : string) (w w1 : World)
    (lease : disklease.DiskLease) (what : string) :
  External.volume_operation_before env this w = (Ok lease, w1) ->
  convert_run env (convert_args env job src_format dst_format) = Some what ->
  let s' := with_ (External.volume_operation env this)
              (_run_copy env src_format dst_format) (job, w) in
  fst s' = Raise (ExternalError what) /\
  w_sanlock (snd (snd s')) = w_sanlock w1 /\
  disklease.held (disklease.resource_of lease) (snd (snd s')) /\
  disklease.persisted_generation (disklease.resource_of lease) (snd (snd s'))
  = Some 0.
Proof.
  intros Hbefore Hrun.
  destruct (volume_operation_lease env this w w1 lease Hbefore)
    as (_ & _ & Hheld & Hgen).
  unfold with_, bind, liftW. simpl. rewrite Hbefore. simpl.
  unfold _run_copy, convert, operation_run, bind, liftW, self, outcome. simpl.
  rewrite Hrun. simpl.
  repeat split; assumption.
Qed.

Lemma failed_copy_leaves_lease_held_witness :
  let env := Sample.env false (Some "qemu-img failed") in
  let job := Sample.job PENDING (DivEndpoint (Sample.div_endpoint false))
               (ExternalEndpoint Sample.external_endpoint) false in
  let w1 := snd (External.volume_operation_before env
                   Sample.external_endpoint (Sample.world [])) in
  let s' := with_ (External.volume_operation env Sample.external_endpoint)
              (_run_copy env "qcow2" "raw") (job, Sample.world []) in
  fst s' = Raise (ExternalError "qemu-img failed") /\
  w_sanlock (snd (snd s')) = w_sanlock w1 /\
  disklease.held (disklease.resource_of Sample.lease) (snd (snd s')) /\
  disklease.persisted_generation (disklease.resource_of Sample.lease)
    (snd (snd s'))
  = Some 0.
Proof.
  intros env job w1 s'.
  assert (Hbefore : External.volume_operation_before env
                      Sample.external_endpoint (Sample.world [])
                    = (Ok (disklease.set__sanlock_fd (Some 3) Sample.lease),
                       w1))
    by (vm_compute; reflexivity).
  assert (Hrun : convert_run env (convert_args env job "qcow2" "raw")
                 = Some "qemu-img failed")
    by reflexivity.
  exact (failed_copy_leaves_lease_held env Sample.external_endpoint job
           "qcow2" "raw" (Sample.world []) w1
           (disklease.set__sanlock_fd (Some 3) Sample.lease)
           "qemu-img failed" Hbefore Hrun).
Defined.

(** The whole run of a job with an external destination whose copy
    fails: the locks of the guarded scope are released, the lease is
    not. *)
Lemma run_with_failing_copy_keeps_lease :
  let env := Sample.env false (Some "qemu-img failed") in
  let job := Sample.job PENDING (DivEndpoint (Sample.div_endpoint false))
               (ExternalEndpoint Sample.external_endpoint) false in
  let s' := _run env (job, Sample.world []) in
  fst s' = Raise (ExternalError "qemu-img failed") /\
  sl_held (w_sanlock (snd (snd s'))) = [disklease.resource_of Sample.lease] /\
  disklease.persisted_generation (disklease.resource_of Sample.lease)
    (snd (snd s'))
  = Some 0 /\
  last (w_trace (snd (snd s')))
  = Some (EvGuardedRelease
            [Lock "00_storage" "sd-1" SHARED;
             Lock "01_img_sd-1" "img-1" SHARED]).
Proof.
  vm_compute. repeat split; reflexivity.
Qed.




End CopyData.

(** ** More on the disk lease *)

Section DiskLeaseFailures.

Import disklease.

(** When [sanlock.release()] fails, [release()] ends in the
    [AttributeError] of the handler's [self._sdUUID]; the object is
    unchanged and the primitive still holds what it held. *)
Theorem release_failure_keeps_lease_held (l : DiskLease) (w : World)
    (errno : Z) (msg : string) :
  hd None (sl_script (w_sanlock w)) = Some (errno, msg) ->
  let s' := release (l, w) in
  fst s' = Raise (AttributeError "_sdUUID") /\
  fst (snd s') = l /\
  sl_held (w_sanlock (snd (snd s'))) = sl_held (w_sanlock w) /\
  sl_lvb (w_sanlock (snd (snd s'))) = sl_lvb (w_sanlock w).
Proof.
  destruct w as [[script fd hl lvb] trace]. simpl. intros H.
  destruct script as [|[[e m]|] script]; simpl in H; try discriminate.
  cbn. repeat split; reflexivity.
Qed.

Lemma release_failure_keeps_lease_held_witness :
  let w := snd (acquire (Sample.lease,
                         Sample.world [None; None; None;
                                       Some (5, "Input/output error")])) in
  let s' := release (fst w, snd w) in
  fst s' = Raise (AttributeError "_sdUUID") /\
  fst (snd s') = fst w /\
  sl_held (w_sanlock (snd (snd s'))) = sl_held (w_sanlock (snd w)) /\
  sl_lvb (w_sanlock (snd (snd s'))) = sl_lvb (w_sanlock (snd w)).
Proof.
  intros w.
  exact (release_failure_keeps_lease_held (fst w) (snd w)
           5 "Input/output error" eq_refl).
Defined.

(** When [register()] and [sanlock.acquire()] succeed and the write of
    the value block fails, [acquire()] raises with the resource
    acquired: the lease is held, its registration is stored in the
    object, and nothing was written to the value block. *)
Theorem acquire_lvb_failure_leaves_lease_held (l : DiskLease) (w : World)
    (errno : Z) (msg : string) (rest : list (option (Z * string))) :
  sl_script (w_sanlock w) = None :: None :: Some (errno, msg) :: rest ->
  let s' := acquire (l, w) in
  fst s' = Raise (AttributeError "_sdUUID") /\
  held (resource_of l) (snd (snd s')) /\
  sl_lvb (w_sanlock (snd (snd s'))) = sl_lvb (w_sanlock w) /\
  _sanlock_fd (fst (snd s')) = Some (sl_next_fd (w_sanlock w)).
Proof.
  destruct w as [[script fd hl lvb] trace]. simpl. intros ->.
  destruct l as [[n p o] sd h g f].
  cbn -[json_dumps]. repeat split; try reflexivity.
  unfold held. simpl. now left.
Qed.

Lemma acquire_lvb_failure_leaves_lease_held_witness :
  let w := Sample.world [None; None; Some (28, "No space left on device")] in
  let s' := acquire (Sample.lease, w) in
  fst s' = Raise (AttributeError "_sdUUID") /\
  held (resource_of Sample.lease) (snd (snd s')) /\
  sl_lvb (w_sanlock (snd (snd s'))) = sl_lvb (w_sanlock w) /\
  _sanlock_fd (fst (snd s')) = Some (sl_next_fd (w_sanlock w)).
Proof.
  exact (acquire_lvb_failure_leaves_lease_held Sample.lease
           (Sample.world [None; None; Some (28, "No space left on device")])
           28 "No space left on device" [] eq_refl).
Defined.

(** When the write of the value block fails in the first
    [update_generation(d)] of a lease, the object has already taken
    the new generation: object and value block disagree from then
    on. *)
Theorem update_generation_lvb_failure_diverges (l : DiskLease) (w : World)
    (d errno : Z) (msg : string) :
  gen (_generation l) = PStr "0" ->
  hd None (sl_script (w_sanlock w)) = Some (errno, msg) ->
  let s' := update_generation d (l, w) in
  fst s' = Raise (AttributeError "_sdUUID") /\
  gen (_generation (fst (snd s'))) = PInt (0 + d) /\
  sl_lvb (w_sanlock (snd (snd s'))) = sl_lvb (w_sanlock w).
Proof.
  destruct w as [[script fd hl lvb] trace]. simpl.
  destruct l as [[n p o] sd h [g] f]. simpl. intros -> H.
  destruct script as [|[[e m]|] script]; simpl in H; try discriminate.
  cbn -[Z.add]. repeat split; reflexivity.
Qed.

Lemma update_generation_lvb_failure_diverges_witness :
  let w := Sample.world [Some (5, "Input/output error")] in
  let s' := update_generation 1 (Sample.lease, w) in
  fst s' = Raise (AttributeError "_sdUUID") /\
  gen (_generation (fst (snd s'))) = PInt (0 + 1) /\
  sl_lvb (w_sanlock (snd (snd s'))) = sl_lvb (w_sanlock w).
Proof.
  exact (update_generation_lvb_failure_diverges Sample.lease
           (Sample.world [Some (5, "Input/output error")])
           1 5 "Input/output error" eq_refl eq_refl).
Defined.

(** With nothing failing, [acquire()] followed by [release()] on a
    new lease returns; afterwards the resource of the lease is not
    held, every other resource is held as before, and the value block
    reads generation 0. *)
Theorem acquire_release_gives_back (resource path : string) (offset : Z)
    (sd : string) (host : Z) (w : World) :
  sl_script (w_sanlock w) = [] ->
  let l := __init__ resource path offset sd host in
  let s' := (acquire;; release) (l, w) in
  fst s' = Ok tt /\
  ~ held (resource_of l) (snd (snd s')) /\
  sl_held (w_sanlock (snd (snd s')))
  = filter (fun h => h <> resource_of l) (sl_held (w_sanlock w)) /\
  persisted_generation (resource_of l) (snd (snd s')) = Some 0.
Proof.
  destruct w as [[script fd hl lvb] trace]. simpl. intros ->.
  unfold bind at 1. rewrite acquire_succeeds.
  cbn -[json_dumps lvb_generation persisted_generation filter].
  split; [reflexivity | ].
  assert (Hf : filter (fun h => h <> resource_of
                                      (__init__ resource path offset sd host))
                 (resource_of (__init__ resource path offset sd host) :: hl)
               = filter (fun h => h <> resource_of
                                          (__init__ resource path offset sd host))
                   hl).
  { apply filter_cons_False. intros H. now apply H. }
  unfold resource_of, encode_utf8 in *. simpl in *.
  split; [ | split].
  - unfold held. simpl. apply released_is_not_held.
  - exact Hf.
  - now rewrite persisted_generation_written.
Qed.

Lemma acquire_release_gives_back_witness :
  let l := Sample.lease in
  let w := Sample.world [] in
  let s' := (acquire;; release) (l, w) in
  fst s' = Ok tt /\
  ~ held (resource_of l) (snd (snd s')) /\
  sl_held (w_sanlock (snd (snd s')))
  = filter (fun h => h <> resource_of l) (sl_held (w_sanlock w)) /\
  persisted_generation (resource_of l) (snd (snd s')) = Some 0.
Proof.
  exact (acquire_release_gives_back "lease-1" "/dev/sd-1/xleases" 3145728
           "sd-1" 1 (Sample.world []) eq_refl).
Defined.

End DiskLeaseFailures.

Section DiskLeaseCalls.

Import disklease.

(** One operation of a lease: what it adds to the trace are calls of
    the primitive on the lease's own resource, the identity of the
    lease stays, and the ['gen'] entry stays the string ['0'] or an
    integer. *)
Lemma run_op_calls (op : lease_op) (l : DiskLease) (w : World) :
  generation_known l ->
  let s' := snd (run_op op (l, w)) in
  generation_known (fst s') /\
  resource_of (fst s') = resource_of l /\
  exists new,
    w_trace (snd s') = w_trace w ++ new /\
    Forall (sanlock_call_on (resource_of l)) new.
Proof.
  intros Hk.
  destruct w as [[script fd hl lvb] trace].
  destruct l as [[n p o] sd h [g] f].
  unfold generation_known in *. simpl in Hk.
  destruct op as [|d|]; simpl run_op.
  - destruct script as [|[[e1 m1]|] [|[[e2 m2]|] [|[[e3 m3]|] script]]];
      cbn -[json_dumps];
      (split; [exact Hk | split; [reflexivity | ] ]);
      rewrite <- ?app_assoc; eexists; (split; [reflexivity | ]);
      repeat constructor.
  - destruct Hk as [-> | [k ->]].
    + destruct script as [|[[e1 m1]|] script];
        cbn -[json_dumps Z.add];
        (split; [right; eauto | split; [reflexivity | ] ]);
        rewrite <- ?app_assoc; eexists; (split; [reflexivity | ]);
        repeat constructor.
    + cbn. split; [right; eauto | split; [reflexivity | ] ].
      exists []. split; [now rewrite app_nil_r | constructor].
  - destruct script as [|[[e1 m1]|] script];
      cbn;
      (split; [exact Hk | split; [reflexivity | ] ]);
      eexists; (split; [reflexivity | ]);
      repeat constructor.
Qed.

(** Whatever sequence of [acquire], [update_generation] and [release]
    calls is made on a lease created by [__init__], and whichever of
    them fail, every call of the cluster-lock primitive they make
    either registers the process or names the resource of the lease:
    no other resource is acquired, released or written. *)
Theorem lease_calls_name_its_resource (resource path : string) (offset : Z)
    (sd : string) (host : Z) (ops : list lease_op) (w : World) :
  let l := __init__ resource path offset sd host in
  exists new,
    w_trace (snd (run_ops ops (l, w))) = w_trace w ++ new /\
    Forall (sanlock_call_on (resource_of l)) new.
Proof.
  intros l.
  assert (Hk : generation_known l) by (left; reflexivity).
  clearbody l. revert l w Hk.
  induction ops as [|op ops IH]; intros l w Hk.
  - exists []. simpl. split; [now rewrite app_nil_r | constructor].
  - destruct (run_op_calls op l w Hk) as (Hk' & Hres & new1 & Ht1 & Hn1).
    simpl run_ops.
    destruct (snd (run_op op (l, w))) as [l' w'] eqn:Hs. simpl in *.
    destruct (IH l' w' Hk') as (new2 & Ht2 & Hn2).
    exists (new1 ++ new2). split.
    + now rewrite Ht2, Ht1, app_assoc.
    + apply Forall_app. split; [exact Hn1 | ]. now rewrite <- Hres.
Qed.

(** The exception of one operation on a lease whose ['gen'] entry is
    the string ['0'] or an integer. *)
Lemma run_op_exception (op : lease_op) (l : DiskLease) (w : World) (e : exn) :
  generation_known l ->
  fst (run_op op (l, w)) = Raise e -> lease_exception e.
Proof.
  intros Hk.
  destruct w as [[script fd hl lvb] trace].
  destruct l as [[n p o] sd h [g] f].
  unfold generation_known in Hk. simpl in Hk. unfold lease_exception.
  destruct op as [|d|]; simpl run_op.
  - destruct script as [|[[e1 m1]|] [|[[e2 m2]|] [|[[e3 m3]|] script]]];
      cbn -[json_dumps]; try discriminate; intros [= <-]; now left.
  - destruct Hk as [-> | [k ->]].
    + destruct script as [|[[e1 m1]|] script];
        cbn -[json_dumps Z.add]; try discriminate; intros [= <-]; now left.
    + cbn. intros [= <-]. now right.
  - destruct script as [|[[e1 m1]|] script];
      cbn; try discriminate; intros [= <-]; now left.
Qed.

(** On a lease created by [__init__], after any sequence of
    operations, an operation that raises ends in the [AttributeError]
    of [self._sdUUID] or in the [TypeError] of the log line of
    [update_generation]: no [SanlockException] escapes, and neither
    [AcquireLockFailure] nor [ReleaseLockFailure] is ever raised. *)
Theorem lease_operations_raise_only (resource path : string) (offset : Z)
    (sd : string) (host : Z) (ops : list lease_op) (op : lease_op)
    (w : World) :
  let l := __init__ resource path offset sd host in
  match fst (run_op op (run_ops ops (l, w))) with
  | Ok _ => True
  | Raise e =>
      lease_exception e /\
      (forall errno msg, e <> SanlockException errno msg) /\
      (forall s errno msg detail, e <> AcquireLockFailure s errno msg detail) /\
      (forall s errno msg, e <> ReleaseLockFailure s errno msg)
  end.
Proof.
  intros l.
  assert (Hk : generation_known l) by (left; reflexivity).
  clearbody l. revert l w Hk.
  induction ops as [|op' ops IH]; intros l w Hk.
  - simpl run_ops.
    destruct (fst (run_op op (l, w))) as [u|e] eqn:He; [exact I | ].
    pose proof (run_op_exception op l w e Hk He) as Hex.
    split; [exact Hex | ].
    destruct Hex as [-> | ->]; repeat split; intros; discriminate.
  - simpl run_ops.
    destruct (run_op_calls op' l w Hk) as (Hk' & _).
    destruct (snd (run_op op' (l, w))) as [l' w'] eqn:Hs. simpl in Hk'.
    apply IH. exact Hk'.
Qed.

End DiskLeaseCalls.

(** ** The scopes of a run *)

Section JobScopes.

Import copy_data.

Lemma add_events_nil (w : World) : add_events [] w = w.
Proof. destruct w. unfold add_events. simpl. now rewrite app_nil_r. Qed.

Lemma add_events_app (a b : list Event) (w : World) :
  add_events b (add_events a w) = add_events (a ++ b) w.
Proof. unfold add_events. simpl. now rewrite app_assoc. Qed.

(** [with cm: body] for a context manager that only records events:
    the body runs in the world the entry left, and the exit events
    follow it on every path. *)
Lemma with_logged {O A} (cm : ContextManager) (body : M (O * World) A)
    (o : O) (w : World) (evs1 evs2 : list Event) :
  (forall w, exists c, cm_before cm w = (Ok c, add_events evs1 w)) ->
  (forall c w, cm_after cm c w = (Ok tt, add_events evs2 w)) ->
  cm_finally cm = true \/ evs2 = [] ->
  with_ cm body (o, w)
  = (fst (body (o, add_events evs1 w)),
     (fst (snd (body (o, add_events evs1 w))),
      add_events evs2 (snd (snd (body (o, add_events evs1 w)))))).
Proof.
  intros Hb Ha Hf. unfold with_, bind, liftW, try_finally. simpl.
  destruct (Hb w) as [c ->].
  destruct (body (o, add_events evs1 w)) as [[a|e] [o2 w2]] eqn:Hbody.
  - destruct (cm_finally cm); simpl; rewrite Hbody; simpl;
      rewrite Ha; reflexivity.
  - destruct (cm_finally cm) eqn:Hfin; simpl; rewrite Hbody; simpl.
    + rewrite Ha. reflexivity.
    + destruct Hf as [Hf|Hf]; [discriminate | ].
      subst evs2. now rewrite add_events_nil.
Qed.

Lemma guarded_context_logged (env : Env) (locks : list lock) :
  guarded_acquire env locks = None ->
  (forall w, exists c,
      cm_before (guarded.context env locks) w
      = (Ok c, add_events [EvGuardedAcquire locks] w)) /\
  (forall c w,
      cm_after (guarded.context env locks) c w
      = (Ok tt, add_events [EvGuardedRelease locks] w)).
Proof.
  intros H. split.
  - intros w. exists tt. simpl. unfold bind, outcome. rewrite H. reflexivity.
  - intros c w. reflexivity.
Qed.

Lemma prepare_logged (env : Env) (ep : Endpoint) :
  prepare_succeeds env ep ->
  (forall w, exists c,
      cm_before (Ep.prepare env ep) w
      = (Ok c, add_events (prepare_events env ep) w)) /\
  (forall c w,
      cm_after (Ep.prepare env ep) c w
      = (Ok tt, add_events (teardown_events ep) w)) /\
  (cm_finally (Ep.prepare env ep) = true \/ teardown_events ep = []).
Proof.
  destruct ep as [e|e]; simpl; intros H.
  - unfold Div.prepare. destruct (Div.prepared e) eqn:Hp; simpl.
    + split; [ | split].
      * intros w. exists tt. now rewrite add_events_nil.
      * intros c w. now rewrite add_events_nil.
      * now right.
    + destruct H as [H|H]; [discriminate | ].
      split; [ | split].
      * intros w. exists tt. unfold bind, outcome. rewrite H. reflexivity.
      * intros c w. reflexivity.
      * now left.
  - split; [ | split].
    + intros w. exists tt. cbn. unfold add_events, log_event, modify. simpl.
      now rewrite <- !app_assoc.
    + intros c w. simpl. now rewrite add_events_nil.
    + now left.
Qed.

(** A run whose locks are granted and whose endpoints are prepared:
    the block under the [with] statements runs after the entries, and
    the exits follow it in reverse order whatever it did. *)
Lemma run_decompose (env : Env) (job : Job) (w : World) :
  guarded_acquire env (job_locks env job) = None ->
  prepare_succeeds env (_source job) ->
  prepare_succeeds env (_dest job) ->
  let w1 := add_events ([EvGuardedAcquire (job_locks env job)]
                        ++ prepare_events env (_source job)
                        ++ prepare_events env (_dest job)) w in
  _run env (job, w)
  = (fst (_run_prepared env (job, w1)),
     (fst (snd (_run_prepared env (job, w1))),
      add_events (teardown_events (_dest job)
                  ++ teardown_events (_source job)
                  ++ [EvGuardedRelease (job_locks env job)])
                 (snd (snd (_run_prepared env (job, w1)))))).
Proof.
  intros Hg Hs Hd w1. rewrite run_unfold. fold (job_locks env job).
  destruct (guarded_context_logged env (job_locks env job) Hg) as [Gb Ga].
  destruct (prepare_logged env (_source job) Hs) as (Sb & Sa & Sf).
  destruct (prepare_logged env (_dest job) Hd) as (Db & Da & Df).
  rewrite (with_logged _ _ job w _ _ Gb Ga (or_introl eq_refl)).
  rewrite (with_logged _ _ job _ _ _ Sb Sa Sf).
  rewrite (with_logged _ _ job _ _ _ Db Da Df).
  simpl fst. simpl snd.
  rewrite !add_events_app.
  subst w1. rewrite <- ?app_assoc. reflexivity.
Qed.

End JobScopes.

(** ** Runs of the job *)

Section JobRuns.

Import copy_data.

Lemma with_entry_fails {O A} (cm : ContextManager) (body : M (O * World) A)
    (o : O) (w w' : World) (e : exn) :
  cm_before cm w = (Raise e, w') ->
  with_ cm body (o, w) = (Raise e, (o, w')).
Proof.
  intros H. unfold with_, bind, liftW. simpl. now rewrite H.
Qed.

Lemma with_generator_enters {O A} (cm : ContextManager)
    (body : M (O * World) A) (o : O) (w w' : World) (c : cm_local cm) :
  cm_finally cm = false ->
  cm_before cm w = (Ok c, w') ->
  with_ cm body (o, w)
  = match body (o, w') with
    | (Ok a, (o2, w2)) =>
        match cm_after cm c w2 with
        | (Ok _, w3) => (Ok a, (o2, w3))
        | (Raise e, w3) => (Raise e, (o2, w3))
        end
    | (Raise e, s2) => (Raise e, s2)
    end.
Proof.
  intros Hf H. unfold with_, bind, liftW. simpl. rewrite H, Hf.
  destruct (body (o, w')) as [[a|e] [o2 w2]]; simpl; [ | reflexivity].
  destruct (cm_after cm c w2) as [[u|e] w3]; reflexivity.
Qed.

Lemma volume_operation_is_generator (env : Env) (ep : Endpoint) :
  cm_finally (Ep.volume_operation env ep) = false.
Proof. destruct ep; reflexivity. Qed.

(** The block under [with self._dest.volume_operation():]: the handle
    of the copy is stored in the job before the copy runs. *)
Lemma run_copy_result (env : Env) (job : Job) (src_format dst_format : string)
    (w : World) :
  let args := convert_args env job src_format dst_format in
  _run_copy env src_format dst_format (job, w)
  = (match convert_run env args with
     | Some what => Raise (ExternalError what)
     | None => Ok tt
     end,
     (set__operation (Some (mkOperation args)) job,
      add_events [EvConvert args; EvOperationRun] w)).
Proof.
  intros args. unfold _run_copy, convert, operation_run, bind, self, liftW.
  simpl. fold args. unfold outcome, add_events.
  destruct (convert_run env args); simpl; now rewrite <- app_assoc.
Qed.

(** A run that gets to the copy: the job holds the handle of the copy
    from then on, and a failure of the copy is the failure of the
    run. *)
Lemma run_starts_copy (env : Env) (job : Job) (w : World)
    (c : cm_local (Ep.volume_operation env (_dest job))) (w1' : World) :
  reaches_validation env job ->
  ~ bitmaps_with_raw env job ->
  cm_before (Ep.volume_operation env (_dest job))
    (add_events ([EvGuardedAcquire (job_locks env job)]
                 ++ prepare_events env (_source job)
                 ++ prepare_events env (_dest job)) w)
  = (Ok c, w1') ->
  let args := convert_args env job (fst (effective_formats env job))
                (snd (effective_formats env job)) in
  fst (snd (_run env (job, w)))
  = set__operation (Some (mkOperation args)) job /\
  (forall what, convert_run env args = Some what ->
                fst (_run env (job, w)) = Raise (ExternalError what)).
Proof.
  intros (Hst & Hg & Hs & Hd) Hraw Hbefore args.
  rewrite (run_decompose env job w Hg Hs Hd). cbv zeta. simpl fst. simpl snd.
  rewrite (run_prepared_accepts env job _ Hst Hraw).
  rewrite (with_generator_enters _ _ job _ w1' c
             (volume_operation_is_generator env (_dest job)) Hbefore).
  rewrite run_copy_result. fold args.
  destruct (convert_run env args) as [what|].
  - split; [reflexivity | ]. now intros ? [= <-].
  - split; [ | discriminate].
    destruct (cm_after (Ep.volume_operation env (_dest job)) c _)
      as [[u|e] w3]; reflexivity.
Qed.



(** When the locks of the job cannot be taken, the run raises that
    failure at once: nothing is prepared, nothing is recorded, the job
    is untouched. *)
Theorem lock_failure_prepares_nothing (env : Env) (job : Job) (w : World)
    (what : string) :
  guarded_acquire env (job_locks env job) = Some what ->
  _run env (job, w) = (Raise (ExternalError what), (job, w)).
Proof.
  intros H. rewrite run_unfold. fold (job_locks env job).
  apply with_entry_fails. simpl. unfold bind, outcome. now rewrite H.
Qed.

Lemma lock_failure_prepares_nothing_witness :
  let env := mkEnv "00_storage" "01_img" 999
               (fun f => if (f =? 5)%Z then "raw" else "qcow2") "raw"
               (fun a b => a +:+ "_" +:+ b)
               (fun _ => Sample.manifest false) (fun _ => false)
               (fun img v => "../" +:+ img +:+ "/" +:+ v)
               (fun s => Some s)
               (fun _ => Some "Resource timeout")
               (fun _ _ _ => None) (fun _ => None) in
  let job := Sample.job PENDING (DivEndpoint (Sample.div_endpoint false))
               (DivEndpoint (Sample.div_endpoint true)) false in
  _run env (job, Sample.world [])
  = (Raise (ExternalError "Resource timeout"), (job, Sample.world [])).
Proof.
  intros env job.
  exact (lock_failure_prepares_nothing env job (Sample.world [])
           "Resource timeout" eq_refl).
Defined.



(** Once the locks are granted and both endpoints prepared, the run
    ends, whatever happened under them (the copy returned or raised,
    the lease could not be acquired, the copy was rejected), by
    tearing down the destination, then the source, then releasing the
    locks. *)
Theorem run_always_leaves_its_scopes (env : Env) (job : Job) (w : World) :
  guarded_acquire env (job_locks env job) = None ->
  prepare_succeeds env (_source job) ->
  prepare_succeeds env (_dest job) ->
  exists w2,
    snd (snd (_run env (job, w)))
    = add_events (teardown_events (_dest job)
                  ++ teardown_events (_source job)
                  ++ [EvGuardedRelease (job_locks env job)]) w2 /\
    last (w_trace (snd (snd (_run env (job, w)))))
    = Some (EvGuardedRelease (job_locks env job)).
Proof.
  intros Hg Hs Hd.
  rewrite (run_decompose env job w Hg Hs Hd). cbv zeta. simpl snd.
  eexists. split; [reflexivity | ].
  unfold add_events. simpl. rewrite !app_assoc. apply last_snoc.
Qed.

Lemma run_always_leaves_its_scopes_witness :
  let env := Sample.env false (Some "qemu-img failed") in
  let job := Sample.job PENDING (DivEndpoint (Sample.div_endpoint false))
               (ExternalEndpoint Sample.external_endpoint) false in
  let w := Sample.world [] in
  exists w2,
    snd (snd (_run env (job, w)))
    = add_events (teardown_events (_dest job)
                  ++ teardown_events (_source job)
                  ++ [EvGuardedRelease (job_locks env job)]) w2 /\
    last (w_trace (snd (snd (_run env (job, w)))))
    = Some (EvGuardedRelease (job_locks env job)).
Proof.
  intros env job w.
  assert (Hs : prepare_succeeds env (_source job)) by (right; reflexivity).
  exact (run_always_leaves_its_scopes env job w eq_refl Hs I).
Defined.

(** Once a run has started the copy, the job keeps the handle of the
    copy: its progress is the progress of that operation after the
    run has ended, whether the copy returned or raised; and when the
    copy raises, the run raises the same failure. *)
Theorem progress_after_copy_started (env : Env) (job : Job) (w : World)
    (c : cm_local (Ep.volume_operation env (_dest job))) (w1' : World)
    (op_progress : Operation -> pyval) :
  reaches_validation env job ->
  ~ bitmaps_with_raw env job ->
  cm_before (Ep.volume_operation env (_dest job))
    (add_events ([EvGuardedAcquire (job_locks env job)]
                 ++ prepare_events env (_source job)
                 ++ prepare_events env (_dest job)) w)
  = (Ok c, w1') ->
  let args := convert_args env job (fst (effective_formats env job))
                (snd (effective_formats env job)) in
  progress op_progress (fst (snd (_run env (job, w))))
  = op_progress (mkOperation args) /\
  (forall what, convert_run env args = Some what ->
                fst (_run env (job, w)) = Raise (ExternalError what)).
Proof.
  intros Hreach Hraw Hbefore args.
  destruct (run_starts_copy env job w c w1' Hreach Hraw Hbefore) as [Hjob Hfail].
  split; [ | exact Hfail].
  rewrite Hjob. reflexivity.
Qed.

Lemma progress_after_copy_started_witness :
  let env := Sample.env false (Some "qemu-img failed") in
  let job := Sample.job PENDING (DivEndpoint (Sample.div_endpoint false))
               (DivEndpoint (Sample.div_endpoint true)) false in
  let w := Sample.world [] in
  let args := convert_args env job (fst (effective_formats env job))
                (snd (effective_formats env job)) in
  progress (fun _ => PInt 50) (fst (snd (_run env (job, w)))) = PInt 50 /\
  (forall what, convert_run env args = Some what ->
                fst (_run env (job, w)) = Raise (ExternalError what)).
Proof.
  intros env job w.
  assert (Hreach : reaches_validation env job).
  { split; [discriminate | ]. split; [reflexivity | ].
    split; right; reflexivity. }
  assert (Hraw : ~ bitmaps_with_raw env job).
  { intros [Hb _]. discriminate Hb. }
  exact (progress_after_copy_started env job w tt _ (fun _ => PInt 50)
           Hreach Hraw eq_refl).
Defined.

(** When the source reports [is_invalid_vm_conf_disk()], the copy that
    the run starts converts from raw to raw, whatever formats the
    metadata of the two volumes give. *)
Theorem invalid_vm_conf_disk_copies_raw (env : Env) (job : Job) (w : World)
    (c : cm_local (Ep.volume_operation env (_dest job))) (w1' : World) :
  Ep.is_invalid_vm_conf_disk env (_source job) = true ->
  reaches_validation env job ->
  ~ bitmaps_with_raw env job ->
  cm_before (Ep.volume_operation env (_dest job))
    (add_events ([EvGuardedAcquire (job_locks env job)]
                 ++ prepare_events env (_source job)
                 ++ prepare_events env (_dest job)) w)
  = (Ok c, w1') ->
  exists op,
    _operation (fst (snd (_run env (job, w)))) = Some op /\
    srcFormat (op_args op) = FORMAT_RAW env /\
    dstFormat (op_args op) = FORMAT_RAW env.
Proof.
  intros Hinv Hreach Hraw Hbefore.
  destruct (run_starts_copy env job w c w1' Hreach Hraw Hbefore) as [Hjob _].
  rewrite Hjob. eexists. split; [reflexivity | ].
  unfold effective_formats. rewrite Hinv. split; reflexivity.
Qed.

Lemma invalid_vm_conf_disk_copies_raw_witness :
  let env := mkEnv "00_storage" "01_img" 999
               (fun f => if (f =? 5)%Z then "raw" else "qcow2") "raw"
               (fun a b => a +:+ "_" +:+ b)
               (fun _ => Sample.manifest false) (fun _ => true)
               (fun img v => "../" +:+ img +:+ "/" +:+ v)
               (fun s => Some s)
               (fun _ => None) (fun _ _ _ => None) (fun _ => None) in
  let job := Sample.job PENDING (DivEndpoint (Sample.div_endpoint false))
               (DivEndpoint (Sample.div_endpoint true)) false in
  exists op,
    _operation (fst (snd (_run env (job, Sample.world [])))) = Some op /\
    srcFormat (op_args op) = FORMAT_RAW env /\
    dstFormat (op_args op) = FORMAT_RAW env.
Proof.
  intros env job.
  assert (Hreach : reaches_validation env job).
  { split; [discriminate | ]. split; [reflexivity | ].
    split; right; reflexivity. }
  assert (Hraw : ~ bitmaps_with_raw env job).
  { intros [Hb _]. discriminate Hb. }
  exact (invalid_vm_conf_disk_copies_raw env job (Sample.world []) tt _
           eq_refl Hreach Hraw eq_refl).
Defined.

(** When entering the destination's [volume_operation()] fails (the
    lease cannot be acquired, the generation of the volume does not
    match), the copy is not started: the run raises that failure, the
    job holds no operation, and the scopes around are left as
    usual. *)
Theorem volume_operation_entry_failure_skips_copy (env : Env) (job : Job)
    (w w1' : World) (e : exn) :
  reaches_validation env job ->
  ~ bitmaps_with_raw env job ->
  cm_before (Ep.volume_operation env (_dest job))
    (add_events ([EvGuardedAcquire (job_locks env job)]
                 ++ prepare_events env (_source job)
                 ++ prepare_events env (_dest job)) w)
  = (Raise e, w1') ->
  _run env (job, w)
  = (Raise e,
     (job,
      add_events (teardown_events (_dest job)
                  ++ teardown_events (_source job)
                  ++ [EvGuardedRelease (job_locks env job)]) w1')).
Proof.
  intros (Hst & Hg & Hs & Hd) Hraw Hbefore.
  rewrite (run_decompose env job w Hg Hs Hd). cbv zeta.
  rewrite (run_prepared_accepts env job _ Hst Hraw).
  rewrite (with_entry_fails _ _ job _ w1' e Hbefore). reflexivity.
Qed.

Lemma volume_operation_entry_failure_skips_copy_witness :
  let env := Sample.env false None in
  let job := Sample.job PENDING (DivEndpoint (Sample.div_endpoint false))
               (ExternalEndpoint Sample.external_endpoint) false in
  let w := Sample.world [None; Some (11, "Resource temporarily unavailable")] in
  fst (_run env (job, w)) = Raise (AttributeError "_sdUUID") /\
  _operation (fst (snd (_run env (job, w)))) = None.
Proof.
  intros env job w.
  assert (Hreach : reaches_validation env job).
  { split; [discriminate | ]. split; [reflexivity | ].
    split; [right; reflexivity | exact I]. }
  assert (Hraw : ~ bitmaps_with_raw env job).
  { intros [Hb _]. discriminate Hb. }
  rewrite (volume_operation_entry_failure_skips_copy env job w
             (snd (cm_before (Ep.volume_operation env (_dest job))
                     (add_events ([EvGuardedAcquire (job_locks env job)]
                                  ++ prepare_events env (_source job)
                                  ++ prepare_events env (_dest job)) w)))
             (AttributeError "_sdUUID") Hreach Hraw eq_refl).
  split; reflexivity.
Defined.

(** Bitmaps are never copied from or to an external-device endpoint:
    a job with [copy_bitmaps] set and an external endpoint on either
    side is rejected with [UnsupportedOperation] as soon as its run
    gets to the validation. *)
Theorem external_endpoint_rejects_bitmaps (env : Env) (job : Job)
    (w : World) :
  is_external (_source job) \/ is_external (_dest job) ->
  _copy_bitmaps job = true ->
  reaches_validation env job ->
  fst (_run env (job, w))
  = Raise (UnsupportedOperation
             "Cannot copy bitmaps from/to volumes with raw format"
             (Ep.path env (_source job)) (Ep.path env (_dest job))).
Proof.
  intros Hext Hb Hreach. apply run_rejects; [exact Hreach | ].
  split; [exact Hb | ]. unfold effective_formats.
  destruct (Ep.is_invalid_vm_conf_disk env (_source job)) eqn:Hinv;
    [now left | ].
  destruct Hext as [Hext|Hext].
  - left. destruct (_source job); [contradiction | reflexivity].
  - right. destruct (_dest job); [contradiction | reflexivity].
Qed.

Lemma external_endpoint_rejects_bitmaps_witness :
  let env := Sample.env false None in
  let job := Sample.job PENDING (ExternalEndpoint Sample.external_endpoint)
               (DivEndpoint (Sample.div_endpoint true)) true in
  fst (_run env (job, Sample.world []))
  = Raise (UnsupportedOperation
             "Cannot copy bitmaps from/to volumes with raw format"
             (Ep.path env (_source job)) (Ep.path env (_dest job))).
Proof.
  intros env job.
  assert (Hreach : reaches_validation env job).
  { split; [discriminate | ]. split; [reflexivity | ].
    split; [exact I | right; reflexivity]. }
  exact (external_endpoint_rejects_bitmaps env job (Sample.world [])
           (or_introl I) eq_refl Hreach).
Defined.

Lemma returning_copy_bumps_and_releases_witness :
  let env := Sample.env false None in
  let job := Sample.job PENDING (DivEndpoint (Sample.div_endpoint false))
               (ExternalEndpoint Sample.external_endpoint) false in
  let r := disklease.resource_of Sample.lease in
  let s' := with_ (External.volume_operation env Sample.external_endpoint)
              (_run_copy env "qcow2" "raw") (job, Sample.world []) in
  fst s' = Ok tt /\
  ~ disklease.held r (snd (snd s')) /\
  disklease.persisted_generation r (snd (snd s')) = Some (0 + 1).
Proof.
  intros env job.
  exact (returning_copy_bumps_and_releases env Sample.external_endpoint job
           "qcow2" "raw" (Sample.world []) eq_refl eq_refl eq_refl).
Defined.

End JobRuns.

(** ** Construction of the job *)

Section JobConstruction.

Import copy_data.

Lemma div_init_writable (env : Env) (params : gmap string pyval) (host_id : Z)
    (writable : bool) (w w' : World) (e : Div.CopyDataDivEndpoint) :
  Div.__init__ env params host_id writable w = (Ok e, w') ->
  Div._writable e = writable.
Proof.
  unfold Div.__init__, bind, lift_res.
  destruct (properties.UUID env true (params_get params "sd_id"));
    [ | discriminate].
  destruct (properties.UUID env true (params_get params "img_id"));
    [ | discriminate].
  destruct (properties.UUID env true (params_get params "vol_id"));
    [ | discriminate].
  destruct (properties.Integer 0 (MAX_GENERATION env)
              (params_get params "generation")); [ | discriminate].
  destruct (properties.Boolean false (params_get params "prepared"));
    [ | discriminate].
  simpl. now intros [= <- _].
Qed.

Lemma create_endpoint_writable (env : Env) (params : gmap string pyval)
    (host_id : Z) (writable : bool) (w w' : World)
    (e : Div.CopyDataDivEndpoint) :
  _create_endpoint env params host_id writable w = (Ok (DivEndpoint e), w') ->
  Div._writable e = writable.
Proof.
  unfold _create_endpoint.
  destruct (params !! "endpoint_type") as [t|]; [ | discriminate].
  destruct (pyval_eqb t (PStr "div")).
  - unfold bind.
    destruct (Div.__init__ env (delete "endpoint_type" params) host_id
                writable w) as [[e'|x] w1] eqn:Hinit; [ | discriminate].
    simpl. intros [= -> _]. eapply div_init_writable; eauto.
  - destruct (pyval_eqb t (PStr "external")); [ | discriminate].
    unfold bind.
    destruct (External.__init__ env (delete "endpoint_type" params) host_id w)
      as [[e'|x] w1]; discriminate.
Qed.

(** In a job that [__init__] constructed, the source endpoint is
    read-only and the destination writable: the source contributes
    only shared locks, and never a lease, to the locks of the job,
    and a destination volume is locked exclusively at its image.  The
    job starts pending, without an operation, with the flag it was
    given. *)
Theorem job_init_lock_modes (env : Env) (job_id : string) (host_id : Z)
    (source destination : gmap string pyval) (copy_bitmaps : bool)
    (w w' : World) (job : Job) :
  __init__ env job_id host_id source destination copy_bitmaps w
  = (Ok job, w') ->
  Forall shared_lock (Ep.locks env (_source job)) /\
  (forall e, _dest job = DivEndpoint e ->
     In (Lock (getNamespace env (IMAGE_NAMESPACE env) (Div.sd_id e))
              (Div.img_id e) EXCLUSIVE)
        (Ep.locks env (_dest job))) /\
  _copy_bitmaps job = copy_bitmaps /\
  _status job = PENDING /\
  _operation job = None.
Proof.
  unfold __init__, bind.
  destruct (_create_endpoint env source host_id false w) as [[src|x] w1]
    eqn:Hsrc; [ | discriminate].
  destruct (_create_endpoint env destination host_id true w1) as [[dst|x] w2]
    eqn:Hdst; [ | discriminate].
  simpl. intros [= <- <-]. simpl.
  split; [ | split; [ | repeat split ] ].
  - destruct src as [e|e]; simpl; [ | constructor].
    apply create_endpoint_writable in Hsrc.
    unfold Div.locks. rewrite Hsrc. repeat constructor.
  - intros e ->. apply create_endpoint_writable in Hdst.
    simpl. unfold Div.locks. rewrite Hdst.
    destruct (sdc.hasVolumeLeases _); simpl; auto.
Qed.

Lemma job_init_lock_modes_witness :
  let env := Sample.env true None in
  let job := Sample.job PENDING (DivEndpoint (Sample.div_endpoint false))
               (DivEndpoint (Sample.div_endpoint true)) false in
  Forall shared_lock (Ep.locks env (_source job)) /\
  (forall e, _dest job = DivEndpoint e ->
     In (Lock (getNamespace env (IMAGE_NAMESPACE env) (Div.sd_id e))
              (Div.img_id e) EXCLUSIVE)
        (Ep.locks env (_dest job))) /\
  _copy_bitmaps job = false /\
  _status job = PENDING /\
  _operation job = None.
Proof.
  intros env job.
  assert (H : __init__ env "job-1" 1 Sample.div_params Sample.div_params false
                (Sample.world [])
              = (Ok job, Sample.world []))
    by (vm_compute; reflexivity).
  exact (job_init_lock_modes env "job-1" 1 Sample.div_params Sample.div_params
           false (Sample.world []) (Sample.world []) job H).
Defined.

(** No job is constructed from parameters that lack [endpoint_type]:
    the [pop] raises [KeyError]; when it is the source that lacks it,
    this happens before anything else. *)
Theorem job_init_needs_endpoint_type (env : Env) (job_id : string)
    (host_id : Z) (source destination : gmap string pyval)
    (copy_bitmaps : bool) (w : World) :
  source !! "endpoint_type" = None \/ destination !! "endpoint_type" = None ->
  (forall job w',
     __init__ env job_id host_id source destination copy_bitmaps w
     <> (Ok job, w')) /\
  (source !! "endpoint_type" = None ->
   __init__ env job_id host_id source destination copy_bitmaps w
   = (Raise (KeyError "endpoint_type"), w)).
Proof.
  intros H. split.
  - intros job w'. unfold __init__, bind.
    destruct H as [H|H].
    + unfold _create_endpoint at 1. rewrite H. discriminate.
    + destruct (_create_endpoint env source host_id false w) as [[src|x] w1];
        [ | discriminate].
      unfold _create_endpoint. rewrite H. discriminate.
  - intros Hs. unfold __init__, bind, _create_endpoint. now rewrite Hs.
Qed.

Lemma job_init_needs_endpoint_type_witness :
  let env := Sample.env false None in
  let source := delete "endpoint_type" Sample.div_params in
  (forall job w',
     __init__ env "job-1" 1 source Sample.external_params false
       (Sample.world [])
     <> (Ok job, w')) /\
  (source !! "endpoint_type" = None ->
   __init__ env "job-1" 1 source Sample.external_params false (Sample.world [])
   = (Raise (KeyError "endpoint_type"), Sample.world [])).
Proof.
  intros env source.
  assert (H : source !! "endpoint_type" = None) by (vm_compute; reflexivity).
  exact (job_init_needs_endpoint_type env "job-1" 1 source
           Sample.external_params false (Sample.world []) (or_introl H)).
Defined.

(** The copy is given a backing file exactly when it is given a
    backing format: an external destination has neither, a volume has
    both or none according to whether it has a parent. *)
Theorem convert_backing_consistent (env : Env) (job : Job)
    (src_format dst_format : string) :
  backing (convert_args env job src_format dst_format) = None
  <-> backingFormat (convert_args env job src_format dst_format) = None.
Proof.
  unfold convert_args. simpl.
  destruct (_dest job) as [e|e]; simpl.
  - unfold Div.backing_path, Div.backing_qemu_format.
    destruct (volume.getParentVolume (Div.volume env e)); split;
      intros H; try discriminate; reflexivity.
  - split; reflexivity.
Qed.

End JobConstruction.

(** ** Whole copies *)

Section WholeCopies.

Import copy_data.

(** Every [volume_operation()] of an external endpoint starts the
    generation of its lease over: with nothing failing, it writes
    generation 0 on acquiring and generation 1 on leaving, whatever
    the value block held before.  Generations do not add up over
    successive copies. *)
Theorem volume_operation_restarts_generation (env : Env)
    (this : External.CopyDataExternalEndpoint) (job : Job)
    (src_format dst_format : string) (w : World) :
  acquireResource env (STORAGE env) (External._lease_sd_id this) SHARED = None ->
  sl_script (w_sanlock w) = [] ->
  convert_run env (convert_args env job src_format dst_format) = None ->
  let info := sdc.lease_info (produce_manifest env (External._lease_sd_id this))
                (External._lease_id this) in
  let r := (External._lease_sd_id this, sdc.resource info,
            [(sdc.path info, sdc.offset info)]) in
  let s' := with_ (External.volume_operation env this)
              (_run_copy env src_format dst_format) (job, w) in
  disklease.persisted_generations r (snd (snd s'))
  = disklease.persisted_generations r w ++ [Some 0; Some 1].
Proof.
  destruct w as [[script fd hl lvb] trace]. simpl. intros Hrm -> Hrun.
  unfold with_, bind, liftW. simpl.
  unfold External.volume_operation_before, withW, bind, try_finally. simpl.
  unfold bind, outcome. rewrite Hrm.
  cbn -[disklease.json_dumps disklease.persisted_generations convert_args
        filter].
  unfold outcome. rewrite Hrun.
  cbn -[disklease.json_dumps disklease.persisted_generations convert_args
        filter].
  unfold disklease.persisted_generations. simpl w_sanlock. simpl sl_lvb.
  rewrite !filter_cons_True by done.
  cbn -[disklease.json_dumps disklease.lvb_generation filter].
  rewrite <- app_assoc. simpl app.
  unfold encode_utf8.
  now rewrite lvb_generation_int, lvb_generation_initial.
Qed.

Lemma volume_operation_restarts_generation_witness :
  let env := Sample.env false None in
  let job := Sample.job PENDING (DivEndpoint (Sample.div_endpoint false))
               (ExternalEndpoint Sample.external_endpoint) false in
  let r := disklease.resource_of Sample.lease in
  let once := with_ (External.volume_operation env Sample.external_endpoint)
                (_run_copy env "qcow2" "raw") (job, Sample.world []) in
  let twice := with_ (External.volume_operation env Sample.external_endpoint)
                 (_run_copy env "qcow2" "raw") (job, snd (snd once)) in
  disklease.persisted_generations r (snd (snd twice))
  = disklease.persisted_generations r (snd (snd once)) ++ [Some 0; Some 1].
Proof.
  intros env job r once twice.
  exact (volume_operation_restarts_generation env Sample.external_endpoint job
           "qcow2" "raw" (snd (snd once)) eq_refl eq_refl eq_refl).
Defined.

(** A copy between two volumes on which nothing fails: the run
    returns, the job holds the handle of the copy, and the world
    records, in this order, the locks taken, source and destination
    prepared, the destination's operation entered, the conversion
    with the effective formats started and run, the operation left,
    destination and source torn down, and the locks released. *)
Theorem volume_copy_run_succeeds (env : Env) (job : Job) (w : World)
    (e : Div.CopyDataDivEndpoint) :
  reaches_validation env job ->
  ~ bitmaps_with_raw env job ->
  _dest job = DivEndpoint e ->
  volume.operation (Div.volume env e) (Div.generation e) = None ->
  let args := convert_args env job (fst (effective_formats env job))
                (snd (effective_formats env job)) in
  convert_run env args = None ->
  _run env (job, w)
  = (Ok tt,
     (set__operation (Some (mkOperation args)) job,
      add_events ([EvGuardedAcquire (job_locks env job)]
                  ++ prepare_events env (_source job)
                  ++ prepare_events env (_dest job)
                  ++ [EvVolumeOperationEnter
                        (volume.getVolumePath (Div.volume env e))
                        (Div.generation e);
                      EvConvert args;
                      EvOperationRun;
                      EvVolumeOperationExit
                        (volume.getVolumePath (Div.volume env e))]
                  ++ teardown_events (_dest job)
                  ++ teardown_events (_source job)
                  ++ [EvGuardedRelease (job_locks env job)]) w)).
Proof.
  intros (Hst & Hg & Hs & Hd) Hraw Hdest Hop args Hrun.
  rewrite (run_decompose env job w Hg Hs Hd). cbv zeta.
  rewrite (run_prepared_accepts env job _ Hst Hraw).
  assert (Hbefore :
    forall w0,
      cm_before (Ep.volume_operation env (DivEndpoint e)) w0
      = (Ok tt, add_events [EvVolumeOperationEnter
                              (volume.getVolumePath (Div.volume env e))
                              (Div.generation e)] w0)).
  { intros w0. simpl. unfold bind, outcome. rewrite Hop. reflexivity. }
  rewrite Hdest.
  rewrite (with_generator_enters (Ep.volume_operation env (DivEndpoint e))
             _ job _ _ tt eq_refl (Hbefore _)).
  rewrite run_copy_result. fold args. rewrite Hrun.
  simpl cm_after. unfold log_event, modify. simpl fst. simpl snd.
  unfold add_events. simpl w_sanlock. simpl w_trace.
  cbn [app]. rewrite <- ?app_assoc. cbn [app]. rewrite <- ?app_assoc.
  reflexivity.
Qed.

Lemma volume_copy_run_succeeds_witness :
  let env := Sample.env false None in
  let job := Sample.job PENDING (DivEndpoint (Sample.div_endpoint false))
               (DivEndpoint (Sample.div_endpoint true)) false in
  let args := convert_args env job "qcow2" "qcow2" in
  fst (_run env (job, Sample.world [])) = Ok tt /\
  _operation (fst (snd (_run env (job, Sample.world []))))
  = Some (mkOperation args).
Proof.
  intros env job args.
  assert (Hreach : reaches_validation env job).
  { split; [discriminate | ]. split; [reflexivity | ].
    split; right; reflexivity. }
  assert (Hraw : ~ bitmaps_with_raw env job).
  { intros [Hb _]. discriminate Hb. }
  rewrite (volume_copy_run_succeeds env job (Sample.world [])
             (Sample.div_endpoint true) Hreach Hraw eq_refl eq_refl eq_refl).
  split; reflexivity.
Defined.

End WholeCopies.
